(** * smtpfd: the privileged supervisor of the filter daemon

    A shallow embedding of [extras/filters/smtpfd/smtpfd.c]: the
    configuration model, the distributor ([priv_send_config],
    [priv_send_filter_proc], [priv_send_filter_conf]), the reload
    transaction ([priv_reload]), the two dispatch handlers, the signal
    handler, [priv_shutdown] and the start-up part of [main].

    The process is single threaded; every C function is embedded as a state
    transformer over a [world] that holds the C globals and the trace of
    externally visible actions.  What the operating system, libevent and the
    files of the daemon that are not part of this development (proc.c,
    parse.y, engine.c, frontend.c, control.c, smtpfd.h) decide is taken from
    an [os_model], a record of oracles. *)

From Stdlib Require Import List String ZArith Bool Lia PeanoNat.
Import ListNotations.

Local Open Scope string_scope.
Local Open Scope list_scope.

(* ================================================================== *)
(** ** Configuration model *)

(** [struct filter_conf]: the entry of the queue, its name, the [chain]
    flag and the argument vector.  [argv] is a NULL terminated vector of
    [argc] strings, kept here as the list of its strings. *)
Record filter_conf : Type := mk_filter {
  name  : string;
  chain : bool;
  argv  : list string
}.

Definition argc (f : filter_conf) : nat := List.length (argv f).

(** [struct smtpfd_conf]: the tail queue [filters], in insertion order. *)
Record smtpfd_conf : Type := mk_conf {
  filters : list filter_conf
}.

(** [config_new_empty] *)
Definition config_new_empty : smtpfd_conf := mk_conf [].

(* ================================================================== *)
(** ** Messages, processes and the trace *)

Inductive imsg_type : Type :=
| IMSG_SOCKET_IPC
| IMSG_RECONF_CONF
| IMSG_RECONF_FILTER
| IMSG_RECONF_FILTER_PROC
| IMSG_RECONF_FILTER_NODE
| IMSG_RECONF_END
| IMSG_CTL_RELOAD
| IMSG_CTL_LOG_VERBOSE
| IMSG_CTL_SHOW_MAIN_INFO
| IMSG_CTL_END
| IMSG_OTHER (n : Z).

Inductive payload : Type :=
| no_data
| str_data (s : string)
| int_data (v : Z).

(** The arguments of [proc_compose] after the handle:
    type, peer id, pid, descriptor, data. *)
Record imsg : Type := mk_imsg {
  hdr_type   : imsg_type;
  hdr_peerid : Z;
  hdr_pid    : Z;
  msg_fd     : Z;
  msg_data   : payload
}.

(** The two retained handles. *)
Inductive imsgproc : Type := p_frontend | p_engine.

Inductive proc_role : Type := PROC_FRONTEND | PROC_ENGINE.

Inductive log_level : Type := LOG_warnx | LOG_info | LOG_debug | LOG_fatal.

Inductive stream : Type := stdout | stderr.

Inductive wstatus : Type :=
| WSIGNALED (sig : Z)
| WEXITED (code : Z)
| WSTOPPED.

Inductive errno_t : Type := EINTR | ECHILD | EOTHER.

(** What [wait] and [waitpid] return: a reaped child, 0 (nothing to reap
    with WNOHANG), or -1 with an errno. *)
Inductive wait_rv : Type :=
| wait_pid (pid : Z) (st : wstatus)
| wait_zero
| wait_err (e : errno_t).

(** Externally visible actions, in the order the process performs them. *)
Inductive event : Type :=
| E_compose (p : imsgproc) (m : imsg)
| E_socketpair (sp0 sp1 : Z)
| E_fork (pid : Z) (f : filter_conf)
| E_close (d : Z)
| E_dup2 (from to : Z)
| E_closefrom (low : Z)
| E_log (lvl : log_level) (text : string) (strs : list string) (ints : list Z)
| E_setverbose (v : Z)
| E_print (s : stream) (text : string)
| E_proc_exec (r : proc_role) (args : list string)
| E_proc_enable (p : imsgproc)
| E_proc_free (p : imsgproc)
| E_config_clear (c : smtpfd_conf)
| E_reaped (pid : Z) (st : wstatus)
| E_control_cleanup (path : string)
| E_daemon
| E_pledge (promises : string)
| E_loopexit.

(** The C globals and the trace. [waits] is what the kernel will answer to
    the coming [wait]/[waitpid] calls; once it is used up there is no child
    left (ECHILD). *)
Record world : Type := mk_world {
  trace    : list event;
  env      : smtpfd_conf;
  conffile : string;
  csock    : string;
  cmd_opts : Z;
  loopexit : bool;
  waits    : list wait_rv
}.

Definition push (e : event) (w : world) : world :=
  mk_world (trace w ++ [e]) (env w) (conffile w) (csock w) (cmd_opts w)
           (loopexit w) (waits w).

Definition pushes (es : list event) (w : world) : world :=
  mk_world (trace w ++ es) (env w) (conffile w) (csock w) (cmd_opts w)
           (loopexit w) (waits w).

Definition set_env (c : smtpfd_conf) (w : world) : world :=
  mk_world (trace w) c (conffile w) (csock w) (cmd_opts w)
           (loopexit w) (waits w).

Definition set_conffile (s : string) (w : world) : world :=
  mk_world (trace w) (env w) s (csock w) (cmd_opts w) (loopexit w) (waits w).

Definition set_csock (s : string) (w : world) : world :=
  mk_world (trace w) (env w) (conffile w) s (cmd_opts w) (loopexit w) (waits w).

Definition set_cmd_opts (o : Z) (w : world) : world :=
  mk_world (trace w) (env w) (conffile w) (csock w) o (loopexit w) (waits w).

Definition set_loopexit (b : bool) (w : world) : world :=
  mk_world (trace w) (env w) (conffile w) (csock w) (cmd_opts w) b (waits w).

Definition set_waits (l : list wait_rv) (w : world) : world :=
  mk_world (trace w) (env w) (conffile w) (csock w) (cmd_opts w)
           (loopexit w) l.

(** What the environment decides.  Every oracle sees the trace so far. *)
Record os_model : Type := mk_os {
  (** [proc_compose] (proc.c): does the handle take the message? *)
  compose_accepts : list event -> imsgproc -> imsg -> bool;
  (** [socketpair]: the two descriptors, or failure. *)
  socketpair_rv   : list event -> option (Z * Z);
  (** [fork]: -1, 0 in the child, the child's pid in the parent. *)
  fork_rv         : list event -> Z;
  dup2_rv         : list event -> Z;
  closefrom_rv    : list event -> Z;
  (** [execvp] returns only when it fails. *)
  execvp_succeeds : list event -> bool;
  (** [parse_config] (parse.y): NULL or a fresh configuration. *)
  parse_config    : list event -> string -> option smtpfd_conf;
  proc_getpid     : imsgproc -> Z;
  geteuid         : Z;
  getpwnam_found  : bool;
  pledge_rv       : Z;
  (** [cmdline_symset] (parse.y) *)
  cmdline_symset  : string -> Z
}.

(** The constants of smtpfd.h that [main] uses. *)
Record smtpfd_h : Type := mk_smtpfd_h {
  CONF_FILE     : string;
  SMTPFD_SOCKET : string;
  SMTPFD_USER   : string;
  OPT_VERBOSE   : Z;
  OPT_VERBOSE2  : Z;
  OPT_NOACTION  : Z
}.

(* ================================================================== *)
(** ** Outcomes and the monad of the embedding *)

(** How a run stops without returning to its caller. *)
Inductive halt : Type :=
| Exited (status : Z)                       (* exit, fatal, fatalx *)
| Execed (file : string) (args : list string) (* a successful execvp *)
| Became (r : proc_role)                    (* engine() / frontend() *)
| OutOfBounds (index : Z).                  (* a store outside rargv *)

(** [Deeper]: the recursion went below the allowed number of frames. *)
Inductive outcome (A : Type) : Type :=
| Ret (a : A) (w : world)
| Halt (h : halt) (w : world)
| Deeper (w : world).

Arguments Ret {A} a w.
Arguments Halt {A} h w.
Arguments Deeper {A} w.

Definition M (A : Type) : Type := world -> outcome A.

Definition ret {A : Type} (a : A) : M A := fun w => Ret a w.

Definition bind {A B : Type} (m : M A) (k : A -> M B) : M B :=
  fun w =>
    match m w with
    | Ret a w' => k a w'
    | Halt h w' => Halt h w'
    | Deeper w' => Deeper w'
    end.

Notation "x <- m ;; k" := (bind m (fun x => k))
  (at level 61, m at next level, right associativity).
Notation "m ;; k" := (bind m (fun _ => k))
  (at level 61, right associativity).

Definition emit (e : event) : M unit := fun w => Ret tt (push e w).

Definition stop {A : Type} (h : halt) : M A := fun w => Halt h w.

(** [exit(status)] *)
Definition exit {A : Type} (status : Z) : M A := stop (Exited status).

(** [fatal]/[fatalx] (log.c): log and exit with status 1. *)
Definition fatal {A : Type} (text : string) (strs : list string) : M A :=
  emit (E_log LOG_fatal text strs []) ;; exit 1%Z.

Definition log_warnx (text : string) (strs : list string) (ints : list Z)
  : M unit := emit (E_log LOG_warnx text strs ints).
Definition log_debug (text : string) (strs : list string) (ints : list Z)
  : M unit := emit (E_log LOG_debug text strs ints).
Definition log_info (text : string) : M unit :=
  emit (E_log LOG_info text [] []).

(** [TAILQ_FOREACH] and counted [for] loops whose body neither breaks nor
    returns. *)
Fixpoint foreach {A : Type} (l : list A) (body : A -> M unit) : M unit :=
  match l with
  | [] => ret tt
  | x :: l' => body x ;; foreach l' body
  end.

Section Supervisor.

Variable os : os_model.

(** Modelled from the spec: [proc_compose(p, type, peerid, pid, fd, data,
    len)] (proc.c is not part of the sources) sends one typed message on
    the channel of the handle; it returns -1 when the message could not be
    queued. *)
Definition proc_compose (p : imsgproc) (m : imsg) : M Z :=
  fun w =>
    if compose_accepts os (trace w) p m
    then Ret 0%Z (push (E_compose p m) w)
    else Ret (-1)%Z w.

(* ================================================================== *)
(** ** The distributor *)

(** The inner [TAILQ_FOREACH(tmp, &conf->filters, entry)] of
    [priv_send_filter_conf]: the first entry whose name compares equal
    with [arg] is handed to [rec], then the loop breaks. *)
Fixpoint send_first_named (rec : filter_conf -> M unit)
         (l : list filter_conf) (arg : string) : M unit :=
  match l with
  | [] => ret tt
  | tmp :: l' =>
      if String.eqb arg (name tmp)         (* !strcmp(f->argv[i], tmp->name) *)
      then rec tmp                         (* ... ; break *)
      else send_first_named rec l' arg
  end.

(** [priv_send_filter_conf(conf, f)].  The counted loop over
    [f->argv[0 .. argc-1]] is the loop over the list.  [depth] is the
    number of nested activations the run may use; the C function has no
    such bound, and a C run that ends corresponds to the runs of every
    [depth] that is large enough. *)
Fixpoint priv_send_filter_conf (depth : nat) (conf : smtpfd_conf)
         (f : filter_conf) : M unit :=
  match depth with
  | O => fun w => Deeper w
  | S depth' =>
      if chain f then
        foreach (argv f)
                (send_first_named (priv_send_filter_conf depth' conf)
                                  (filters conf))
      else
        proc_compose p_engine
          (mk_imsg IMSG_RECONF_FILTER_NODE 0 0 (-1) (str_data (name f))) ;;
        ret tt
  end.

(** [socketpair(AF_UNIX, ..., sp)]: [None] when it returns -1. *)
Definition socketpair : M (option (Z * Z)) :=
  fun w =>
    match socketpair_rv os (trace w) with
    | Some (a, b) => Ret (Some (a, b)) (push (E_socketpair a b) w)
    | None => Ret None w
    end.

(** [fork()], called for the entry [f]; the trace of the parent records
    the child. *)
Definition fork (f : filter_conf) : M Z :=
  fun w =>
    let pid := fork_rv os (trace w) in
    if (0 <? pid)%Z then Ret pid (push (E_fork pid f) w) else Ret pid w.

Definition dup2 (from to : Z) : M Z :=
  fun w =>
    let r := dup2_rv os (trace w) in
    if (r =? -1)%Z then Ret r w else Ret r (push (E_dup2 from to) w).

Definition closefrom (low : Z) : M Z :=
  fun w =>
    let r := closefrom_rv os (trace w) in
    if (r =? -1)%Z then Ret r w else Ret r (push (E_closefrom low) w).

(** [execvp(file, args)]: replaces the process image, or returns -1.
    [file] is [None] for a NULL pointer. *)
Definition execvp (file : option string) (args : list string) : M Z :=
  fun w =>
    match file with
    | Some path =>
        if execvp_succeeds os (trace w)
        then Halt (Execed path args) w
        else Ret (-1)%Z w
    | None => Ret (-1)%Z w
    end.

(** [priv_send_filter_proc(f)]: both sides of the fork. *)
Definition priv_send_filter_proc (f : filter_conf) : M unit :=
  sp <- socketpair ;;
  match sp with
  | None => fatal "socketpair" []
  | Some (sp0, sp1) =>
      pid <- fork f ;;
      if (pid =? -1)%Z then fatal "fork" []
      else if (pid =? 0)%Z then
        (* the child *)
        r <- dup2 sp0 3 ;;
        if (r =? -1)%Z then fatal "dup2" [] else
        r <- closefrom 4 ;;
        if (r =? -1)%Z then fatal "closefrom" [] else
        execvp (nth_error (argv f) 0) (skipn 1 (argv f)) ;;
        fatal "proc_exec: execvp: %s" (firstn 1 (argv f))
      else
        (* the parent *)
        emit (E_close sp0) ;;
        log_debug "forked filter %s as pid %d" [name f] [pid] ;;
        proc_compose p_engine
          (mk_imsg IMSG_RECONF_FILTER_PROC 0 pid sp1 (str_data (name f))) ;;
        ret tt
  end.

(** [priv_send_config(xconf)] *)
Definition priv_send_config (depth : nat) (xconf : smtpfd_conf) : M Z :=
  (* Send fixed part of config to engine. *)
  r <- proc_compose p_engine (mk_imsg IMSG_RECONF_CONF 0 0 (-1) no_data) ;;
  if (r =? -1)%Z then ret (-1)%Z else
  foreach (filters xconf)
          (fun f => if chain f then ret tt else priv_send_filter_proc f) ;;
  foreach (filters xconf)
          (fun f =>
             proc_compose p_engine
               (mk_imsg IMSG_RECONF_FILTER 0 0 (-1) (str_data (name f))) ;;
             priv_send_filter_conf depth xconf f) ;;
  (* Tell children the revised config is now complete. *)
  r <- proc_compose p_engine (mk_imsg IMSG_RECONF_END 0 0 (-1) no_data) ;;
  if (r =? -1)%Z then ret (-1)%Z else ret 0%Z.

(* ================================================================== *)
(** ** Reload *)

Definition get_env : M smtpfd_conf := fun w => Ret (env w) w.
Definition get_conffile : M string := fun w => Ret (conffile w) w.
Definition get_csock : M string := fun w => Ret (csock w) w.
Definition get_cmd_opts : M Z := fun w => Ret (cmd_opts w) w.
Definition get_waits : M (list wait_rv) := fun w => Ret (waits w) w.
Definition put_env (c : smtpfd_conf) : M unit :=
  fun w => Ret tt (set_env c w).
Definition put_waits (l : list wait_rv) : M unit :=
  fun w => Ret tt (set_waits l w).

Definition call_parse_config (path : string) : M (option smtpfd_conf) :=
  fun w => Ret (parse_config os (trace w) path) w.

(** [config_clear(conf)]: every entry and the configuration are freed. *)
Definition config_clear (c : smtpfd_conf) : M unit :=
  emit (E_config_clear c).

(** [priv_reload()] *)
Definition priv_reload (depth : nat) : M Z :=
  path <- get_conffile ;;
  x <- call_parse_config path ;;
  match x with
  | None => ret (-1)%Z
  | Some xconf =>
      r <- priv_send_config depth xconf ;;
      if (r =? -1)%Z then ret (-1)%Z else
      old <- get_env ;;
      config_clear old ;;
      put_env xconf ;;
      ret 0%Z
  end.

(* ================================================================== *)
(** ** Shutdown *)

(** The [do ... while] of [priv_shutdown] around the blocking [wait]. *)
Fixpoint shutdown_wait (engine_pid : Z) (ws : list wait_rv) : M unit :=
  match ws with
  | [] => put_waits []                       (* -1, ECHILD *)
  | wait_err EINTR :: ws' => shutdown_wait engine_pid ws'
  | wait_err ECHILD :: ws' => put_waits ws'
  | wait_err EOTHER :: ws' => put_waits ws' ;; fatal "wait" []
  | wait_zero :: ws' => shutdown_wait engine_pid ws'
  | wait_pid pid st :: ws' =>
      emit (E_reaped pid st) ;;
      match st with
      | WSIGNALED sig =>
          log_warnx "%s terminated; signal %d"
                    [if (pid =? engine_pid)%Z then "engine" else "frontend"]
                    [sig]
      | _ => ret tt
      end ;;
      shutdown_wait engine_pid ws'
  end.

(** [priv_shutdown()]; it does not return. *)
Definition priv_shutdown {A : Type} : M A :=
  let frontend_pid := proc_getpid os p_frontend in
  let engine_pid := proc_getpid os p_frontend in
  (* Close pipes. *)
  emit (E_proc_free p_frontend) ;;
  emit (E_proc_free p_engine) ;;
  c <- get_env ;;
  config_clear c ;;
  log_debug "waiting for children to terminate" [] [] ;;
  ws <- get_waits ;;
  shutdown_wait engine_pid ws ;;
  s <- get_csock ;;
  emit (E_control_cleanup s) ;;
  log_info "terminating" ;;
  exit 0%Z.

(* ================================================================== *)
(** ** Signals and dispatch *)

Inductive signal : Type := SIGCHLD | SIGTERM | SIGINT | SIGHUP | SIGOTHER (n : Z).

(** The [do ... while] of the SIGCHLD case around [waitpid(WNOHANG)]. *)
Fixpoint reap_children (ws : list wait_rv) : M unit :=
  match ws with
  | [] => put_waits []                       (* -1, ECHILD *)
  | wait_err EINTR :: ws' => reap_children ws'
  | wait_err _ :: ws' => put_waits ws'
  | wait_zero :: ws' => put_waits ws'
  | wait_pid pid st :: ws' =>
      emit (E_reaped pid st) ;;
      match st with
      | WSIGNALED sig =>
          log_warnx "process %d terminated by signal %d" [] [pid; sig]
      | WEXITED code =>
          if (code =? 0)%Z
          then log_debug "debug: process %d exited normally" [] [pid]
          else log_warnx "process %d exited with status %d" [] [pid; code]
      | WSTOPPED => ret tt
      end ;;
      reap_children ws'
  end.

(** [priv_sig_handler(sig, event, arg)] *)
Definition priv_sig_handler (depth : nat) (sig : signal) : M unit :=
  match sig with
  | SIGCHLD => ws <- get_waits ;; reap_children ws
  | SIGTERM | SIGINT => priv_shutdown
  | SIGHUP =>
      r <- priv_reload depth ;;
      if (r =? -1)%Z
      then log_warnx "configuration reload failed" [] []
      else log_debug "configuration reloaded" [] []
  | SIGOTHER _ => fatal "unexpected signal" []
  end.

(** [event_loopexit(NULL)] (libevent): the loop returns once the running
    callback is done. *)
Definition event_loopexit : M unit :=
  fun w => Ret tt (push E_loopexit (set_loopexit true w)).

Definition log_setverbose (v : Z) : M unit := emit (E_setverbose v).

(** [priv_dispatch_frontend(p, imsg, arg)]; [None] is the NULL message. *)
Definition priv_dispatch_frontend (depth : nat) (p : imsgproc)
           (msg : option imsg) : M unit :=
  match msg with
  | None => event_loopexit
  | Some m =>
      match hdr_type m with
      | IMSG_CTL_RELOAD =>
          r <- priv_reload depth ;;
          if (r =? -1)%Z
          then log_warnx "configuration reload failed" [] []
          else log_warnx "configuration reloaded" [] []
      | IMSG_CTL_LOG_VERBOSE =>
          (* Already checked by frontend. *)
          log_setverbose (match msg_data m with int_data v => v | _ => 0%Z end)
      | IMSG_CTL_SHOW_MAIN_INFO =>
          proc_compose p (mk_imsg IMSG_CTL_END 0 (hdr_pid m) (-1) no_data) ;;
          ret tt
      | _ =>
          log_debug "%s: error handling imsg %d" ["priv_dispatch_frontend"] []
      end
  end.

(** [priv_dispatch_engine(p, imsg, arg)] *)
Definition priv_dispatch_engine (p : imsgproc) (msg : option imsg) : M unit :=
  match msg with
  | None => event_loopexit
  | Some m =>
      log_debug "%s: error handling imsg %d" ["priv_dispatch_engine"] []
  end.

(** What libevent delivers: a message (or the closure) of one of the two
    handles, or a signal. *)
Inductive loop_event : Type :=
| ev_frontend (msg : option imsg)
| ev_engine (msg : option imsg)
| ev_signal (sig : signal).

(** The callbacks registered in [main] with [proc_setcallback] and
    [signal_set]. *)
Definition callback (depth : nat) (e : loop_event) : M unit :=
  match e with
  | ev_frontend msg => priv_dispatch_frontend depth p_frontend msg
  | ev_engine msg => priv_dispatch_engine p_engine msg
  | ev_signal sig => priv_sig_handler depth sig
  end.

(** [event_dispatch()] (libevent) over the events that will arrive: one
    callback per event; the loop returns after a callback that asked for
    the exit, or when nothing is left to wait for. *)
Fixpoint event_dispatch (depth : nat) (evs : list loop_event) : M unit :=
  match evs with
  | [] => ret tt
  | e :: evs' =>
      callback depth e ;;
      fun w => if loopexit w then Ret tt w else event_dispatch depth evs' w
  end.

(** The end of [main]: [event_dispatch(); priv_shutdown();]. *)
Definition supervise (depth : nat) (evs : list loop_event) : M Z :=
  event_dispatch depth evs ;;
  priv_shutdown.

(* ================================================================== *)
(** ** [main] *)

Variable h : smtpfd_h.

(** What [getopt(argc, argv, "D:dEFf:ns:v")] returns, call after call,
    with [optarg] where the option takes one. *)
Inductive getopt_rv : Type :=
| opt_D (optarg : string)
| opt_d
| opt_E
| opt_F
| opt_f (optarg : string)
| opt_n
| opt_s (optarg : string)
| opt_v
| opt_unknown.

(** The locals of [main] that the option loop sets. *)
Record main_locals : Type := mk_locals {
  debug         : Z;
  engine_flag   : Z;
  frontend_flag : Z
}.

(** [x & flag] used as a condition. *)
Definition flag_set (x flag : Z) : bool := negb (Z.land x flag =? 0)%Z.

Definition put_conffile (s : string) : M unit :=
  fun w => Ret tt (set_conffile s w).
Definition put_csock (s : string) : M unit :=
  fun w => Ret tt (set_csock s w).
Definition put_cmd_opts (o : Z) : M unit :=
  fun w => Ret tt (set_cmd_opts o w).

Definition nl : string := String (Ascii.ascii_of_nat 10) EmptyString.

(** [usage()] *)
Definition usage {A : Type} (progname : string) : M A :=
  emit (E_print stderr
          ("usage: " ++ progname ++ " [-dnv] [-f file] [-s socket]" ++ nl)) ;;
  exit 1%Z.

(** The body of the [switch (ch)] of the option loop. *)
Definition main_option (progname : string) (l : main_locals)
           (ch : getopt_rv) : M main_locals :=
  match ch with
  | opt_D optarg =>
      (if (cmdline_symset os optarg <? 0)%Z
       then log_warnx "could not parse macro definition %s" [optarg] []
       else ret tt) ;;
      ret l
  | opt_d => ret (mk_locals 1 (engine_flag l) (frontend_flag l))
  | opt_E => ret (mk_locals (debug l) 1 (frontend_flag l))
  | opt_F => ret (mk_locals (debug l) (engine_flag l) 1)
  | opt_f optarg => put_conffile optarg ;; ret l
  | opt_n =>
      o <- get_cmd_opts ;;
      put_cmd_opts (Z.lor o (OPT_NOACTION h)) ;;
      ret l
  | opt_s optarg => put_csock optarg ;; ret l
  | opt_v =>
      o <- get_cmd_opts ;;
      (if flag_set o (OPT_VERBOSE h)
       then put_cmd_opts (Z.lor o (OPT_VERBOSE2 h))
       else ret tt) ;;
      o <- get_cmd_opts ;;
      put_cmd_opts (Z.lor o (OPT_VERBOSE h)) ;;
      ret l
  | opt_unknown => usage progname
  end.

(** [while ((ch = getopt(...)) != -1) switch (ch) ...] *)
Fixpoint getopt_loop (progname : string) (l : main_locals)
         (opts : list getopt_rv) : M main_locals :=
  match opts with
  | [] => ret l
  | ch :: opts' =>
      l' <- main_option progname l ch ;;
      getopt_loop progname l' opts'
  end.

(** [config_print(conf)] *)
Definition config_print (conf : smtpfd_conf) : M unit :=
  foreach (filters conf)
          (fun f =>
             emit (E_print stdout
                     ((if chain f then "chain" else "filter")
                        ++ " " ++ name f)) ;;
             foreach (argv f) (fun a => emit (E_print stdout (" " ++ a))) ;;
             emit (E_print stdout nl)).

(** [char *rargv[7]]; a slot holds a string or NULL. *)
Definition rargv_t : Type := list (option string).

Fixpoint update {A : Type} (l : list A) (i : nat) (v : A) : list A :=
  match l, i with
  | [], _ => []
  | _ :: l', O => v :: l'
  | x :: l', S i' => x :: update l' i' v
  end.

(** [rargv[i] = v]: a store outside the array stops the model. *)
Definition store (a : rargv_t) (i : Z) (v : option string) : M rargv_t :=
  fun w =>
    if (0 <=? i)%Z && (i <? Z.of_nat (List.length a))%Z
    then Ret (update a (Z.to_nat i) v) w
    else Halt (OutOfBounds i) w.

(** [rargv[rargc++] = v] *)
Definition store_next (st : rargv_t * Z) (v : option string)
  : M (rargv_t * Z) :=
  a <- store (fst st) (snd st) v ;;
  ret (a, (snd st + 1)%Z).

(** The strings of a vector up to its first NULL. *)
Fixpoint strings_of (a : rargv_t) : list string :=
  match a with
  | Some s :: a' => s :: strings_of a'
  | _ => []
  end.

(** Modelled from the spec: [proc_exec(role, argv)] (proc.c is not part of
    the sources) forks and executes a child of that role with the argument
    vector, connected to the supervisor by a message channel. *)
Definition proc_exec (r : proc_role) (a : rargv_t) : M unit :=
  emit (E_proc_exec r (strings_of a)).

(** Modelled from the spec: [engine(debug, verbose)] (engine.c is not part
    of the sources) runs this invocation as the engine role instead of the
    supervisor; it does not return. *)
Definition engine {A : Type} (debug verbose : Z) : M A :=
  stop (Became PROC_ENGINE).

(** Modelled from the spec: [frontend(debug, verbose, sock)] (frontend.c
    is not part of the sources) runs this invocation as the frontend role;
    it does not return. *)
Definition frontend {A : Type} (debug verbose : Z) (sock : string) : M A :=
  stop (Became PROC_FRONTEND).

(** [main], after [getopt] has split the command line into the options
    [opts] and the [rest] that follows them; [evs] is what the event loop
    will deliver.  The calls that only prepare the logger, the process
    title, libevent and the callbacks ([log_init], [log_procinit],
    [setproctitle], [event_init], [signal_set], [signal_add], [signal],
    [proc_setcallback]) leave no event: the callbacks they register are
    the ones [callback] runs. *)
Definition main (depth : nat) (progname : string) (argv0 : option string)
           (opts : list getopt_rv) (rest : list string)
           (evs : list loop_event) : M Z :=
  put_conffile (CONF_FILE h) ;;
  put_csock (SMTPFD_SOCKET h) ;;
  log_setverbose 1 ;;
  let saved_argv0 := match argv0 with Some s => s | None => "smtpfd" end in
  l <- getopt_loop progname (mk_locals 0 0 0) opts ;;
  let argc := Z.of_nat (List.length rest) in       (* argc -= optind *)
  if (0 <? argc)%Z
     || (negb (engine_flag l =? 0)%Z && negb (frontend_flag l =? 0)%Z)
  then usage progname else
  o <- get_cmd_opts ;;
  s <- get_csock ;;
  (if negb (engine_flag l =? 0)%Z
   then engine (debug l) (Z.land o (OPT_VERBOSE h))
   else if negb (frontend_flag l =? 0)%Z
   then frontend (debug l) (Z.land o (OPT_VERBOSE h)) s
   else ret tt) ;;
  (* parse config file *)
  path <- get_conffile ;;
  x <- call_parse_config path ;;
  match x with
  | None => exit 1%Z
  | Some c =>
      put_env c ;;
      o <- get_cmd_opts ;;
      if flag_set o (OPT_NOACTION h) then
        (if flag_set o (OPT_VERBOSE h)
         then config_print c
         else emit (E_print stderr ("configuration OK" ++ nl))) ;;
        exit 0%Z
      else
      (* Check for root privileges. *)
      if negb (geteuid os =? 0)%Z then fatal "need root privileges" [] else
      (* Check for assigned daemon user *)
      if negb (getpwnam_found os)
      then fatal "unknown user %s" [SMTPFD_USER h] else
      log_setverbose (Z.land o (OPT_VERBOSE h)) ;;
      (if (debug l =? 0)%Z then emit E_daemon else ret tt) ;;
      log_info "startup" ;;
      let st := (repeat (@None string) 7, 0%Z) in  (* rargc = 0 *)
      st <- store_next st (Some saved_argv0) ;;
      st <- store_next st (Some "-F") ;;
      st <- (if negb (debug l =? 0)%Z
             then store_next st (Some "-d") else ret st) ;;
      st <- (if flag_set o (OPT_VERBOSE h)
             then store_next st (Some "-v") else ret st) ;;
      st <- store_next st (Some "-s") ;;
      s <- get_csock ;;
      st <- store_next st (Some s) ;;
      st <- store_next st None ;;
      let rargv := fst st in
      proc_exec PROC_FRONTEND rargv ;;
      rargv <- store rargv 1 (Some "-E") ;;
      rargv <- store rargv (argc - 3)%Z None ;;
      proc_exec PROC_ENGINE rargv ;;
      (* Start children *)
      emit (E_proc_enable p_frontend) ;;
      emit (E_proc_enable p_engine) ;;
      (* Connect the two children *)
      sp <- socketpair ;;
      match sp with
      | None => fatal "socketpair" []
      | Some (sp0, sp1) =>
          r <- proc_compose p_frontend
                 (mk_imsg IMSG_SOCKET_IPC 0 0 sp0 no_data) ;;
          if (r =? -1)%Z then fatal "proc_compose" [] else
          r <- proc_compose p_engine
                 (mk_imsg IMSG_SOCKET_IPC 0 0 sp1 no_data) ;;
          if (r =? -1)%Z then fatal "proc_compose" [] else
          c <- get_env ;;
          priv_send_config depth c ;;
          if (pledge_rv os =? -1)%Z then fatal "pledge" [] else
          emit (E_pledge "rpath stdio sendfd cpath") ;;
          supervise depth evs
      end
  end.

End Supervisor.

(* ================================================================== *)
(** ** Reading a trace *)

Definition world_of {A : Type} (o : outcome A) : world :=
  match o with
  | Ret _ w => w
  | Halt _ w => w
  | Deeper w => w
  end.

(** The messages queued on the engine handle, oldest first. *)
Definition engine_msgs (tr : list event) : list imsg :=
  flat_map (fun e => match e with
                     | E_compose p_engine m => [m]
                     | _ => []
                     end) tr.

(** A message without its pid and descriptor. *)
Definition kind_of (m : imsg) : imsg_type * payload :=
  (hdr_type m, msg_data m).

(** The entries a filter process was forked for. *)
Definition forked (tr : list event) : list filter_conf :=
  flat_map (fun e => match e with
                     | E_fork _ f => [f]
                     | _ => []
                     end) tr.

(** The names carried by the messages of type [t] to the engine. *)
Definition names_sent (t : imsg_type) (tr : list event) : list string :=
  flat_map (fun m => match msg_data m with
                     | str_data s =>
                         match t, hdr_type m with
                         | IMSG_RECONF_FILTER, IMSG_RECONF_FILTER => [s]
                         | IMSG_RECONF_FILTER_PROC, IMSG_RECONF_FILTER_PROC => [s]
                         | IMSG_RECONF_FILTER_NODE, IMSG_RECONF_FILTER_NODE => [s]
                         | _, _ => []
                         end
                     | _ => []
                     end) (engine_msgs tr).

(** Events that start a process. *)
Definition starts_process (e : event) : bool :=
  match e with
  | E_fork _ _ | E_proc_exec _ _ => true
  | _ => false
  end.

(** The member message of a leaf. *)
Definition node_msg (n : string) : imsg :=
  mk_imsg IMSG_RECONF_FILTER_NODE 0 0 (-1) (str_data n).

Definition node_event (n : string) : event := E_compose p_engine (node_msg n).

(** A member message to the engine. *)
Definition is_node (e : event) : Prop := exists n, e = node_event n.

(** [only_adds P m]: however [m] ends, it has left the globals alone and
    appended to the trace only events that satisfy [P]. *)
Definition only_adds {A : Type} (P : event -> Prop) (m : M A) : Prop :=
  forall w, exists delta,
    world_of (m w) = pushes delta w /\ Forall P delta.

(* ================================================================== *)
(** ** The specification's view of a configuration *)

(** The entry a name refers to. *)
Definition entry_of (conf : smtpfd_conf) (n : string) : option filter_conf :=
  find (fun e => String.eqb n (name e)) (filters conf).

Definition leaves (conf : smtpfd_conf) : list filter_conf :=
  filter (fun f => negb (chain f)) (filters conf).

(** Every name a chain refers to is the name of an entry. *)
Definition names_resolve (conf : smtpfd_conf) : bool :=
  forallb (fun e =>
             negb (chain e)
             || forallb (fun n => match entry_of conf n with
                                  | Some _ => true
                                  | None => false
                                  end) (argv e))
          (filters conf).

(** [flattens conf refs out]: [out] is the reference list [refs] resolved
    depth first, in order, down to the names of leaves. *)
Inductive flattens (conf : smtpfd_conf) : list string -> list string -> Prop :=
| flattens_nil : flattens conf [] []
| flattens_leaf : forall n e refs out,
    entry_of conf n = Some e -> chain e = false ->
    flattens conf refs out ->
    flattens conf (n :: refs) (name e :: out)
| flattens_chain : forall n e refs inner out,
    entry_of conf n = Some e -> chain e = true ->
    flattens conf (argv e) inner ->
    flattens conf refs out ->
    flattens conf (n :: refs) (inner ++ out).

(** [nesting conf f d]: the chain nesting depth of [f] is [d]; a leaf, and
    a chain none of whose references resolves, has depth 0, another chain
    is one deeper than its deepest member.  A chain that reaches itself has
    no depth. *)
Inductive nesting (conf : smtpfd_conf) : filter_conf -> nat -> Prop :=
| nesting_leaf : forall f, chain f = false -> nesting conf f 0
| nesting_chain : forall f d,
    chain f = true -> nesting_refs conf (argv f) d -> nesting conf f d
with nesting_refs (conf : smtpfd_conf) : list string -> nat -> Prop :=
| nesting_none : nesting_refs conf [] 0
| nesting_absent : forall n refs d,
    entry_of conf n = None -> nesting_refs conf refs d ->
    nesting_refs conf (n :: refs) d
| nesting_member : forall n e refs d1 d2,
    entry_of conf n = Some e -> nesting conf e d1 ->
    nesting_refs conf refs d2 ->
    nesting_refs conf (n :: refs) (Nat.max (S d1) d2).

Scheme nesting_mut := Induction for nesting Sort Prop
  with nesting_refs_mut := Induction for nesting_refs Sort Prop.

(** No chain of the configuration reaches itself. *)
Definition acyclic (conf : smtpfd_conf) : Prop :=
  forall f, In f (filters conf) -> exists d, nesting conf f d.

(** The run returned to its caller. *)
Definition returns {A : Type} (o : outcome A) : Prop :=
  exists a w, o = Ret a w.

(** The environment seen by the supervisor when nothing fails: the
    handles take every message, [socketpair] succeeds and [fork] returns
    the pid of the child. *)
Definition nothing_fails (os : os_model) : Prop :=
  (forall tr p m, compose_accepts os tr p m = true)
  /\ (forall tr, exists a b, socketpair_rv os tr = Some (a, b))
  /\ (forall tr, (0 < fork_rv os tr)%Z).

(** The environment seen by the child of [priv_send_filter_proc]: [fork]
    has returned 0 and the calls that follow succeed. *)
Definition in_child (os : os_model) : Prop :=
  (forall tr, exists a b, socketpair_rv os tr = Some (a, b))
  /\ (forall tr, fork_rv os tr = 0%Z)
  /\ (forall tr, dup2_rv os tr <> (-1)%Z)
  /\ (forall tr, closefrom_rv os tr <> (-1)%Z)
  /\ (forall tr, execvp_succeeds os tr = true).

(** Log lines and verbosity changes. *)
Definition is_report (e : event) : bool :=
  match e with
  | E_log _ _ _ _ | E_setverbose _ => true
  | _ => false
  end.

(** What [config_print] writes for a configuration. *)
Definition config_lines (c : smtpfd_conf) : list event :=
  flat_map (fun f =>
              E_print stdout ((if chain f then "chain" else "filter")
                                ++ " " ++ name f)
              :: map (fun a => E_print stdout (" " ++ a)) (argv f)
              ++ [E_print stdout nl])
           (filters c).

Definition is_opt_v (o : getopt_rv) : bool :=
  match o with opt_v => true | _ => false end.

(** What the proofs need of the option bits of smtpfd.h: the two bits
    tested by [main] are not empty and do not overlap. *)
Definition flags_distinct (h : smtpfd_h) : Prop :=
  OPT_NOACTION h <> 0%Z
  /\ OPT_VERBOSE h <> 0%Z
  /\ Z.land (OPT_NOACTION h) (OPT_VERBOSE h) = 0%Z.

(** The closure of a handle, as the event loop delivers it. *)
Definition closed (p : imsgproc) : loop_event :=
  match p with
  | p_frontend => ev_frontend None
  | p_engine => ev_engine None
  end.

(* ================================================================== *)
(** ** Concrete inputs *)

Definition virus : filter_conf := mk_filter "virus" false ["clamfilter"].
Definition all : filter_conf := mk_filter "all" true ["virus"].

(** One leaf [virus] and one chain [all] over it. *)
Definition conf_virus_all : smtpfd_conf := mk_conf [virus; all].

(** Two chains that refer to each other, then a leaf. *)
Definition ping : filter_conf := mk_filter "ping" true ["pong"].
Definition pong : filter_conf := mk_filter "pong" true ["ping"].
Definition conf_cycle : smtpfd_conf := mk_conf [ping; pong; virus].

(** A chain [top] over [A, B] where [B] is a chain over [C, D]. *)
Definition top : filter_conf := mk_filter "top" true ["A"; "B"].
Definition conf_nested : smtpfd_conf :=
  mk_conf [ mk_filter "A" false ["a"]; mk_filter "C" false ["c"];
            mk_filter "D" false ["d"]; mk_filter "B" true ["C"; "D"];
            top ].

(** A leaf with an argument after its executable. *)
Definition scan : filter_conf :=
  mk_filter "scan" false ["clamfilter"; "--stream"].

(** An environment in which nothing fails; [fork] answers [pid] and
    [parse_config] answers [parsed]. *)
Definition os_with (pid : Z) (parsed : option smtpfd_conf) : os_model :=
  mk_os (fun _ _ _ => true)
        (fun _ => Some (7, 8)%Z)
        (fun _ => pid)
        (fun _ => 0%Z) (fun _ => 0%Z)
        (fun _ => true)
        (fun _ _ => parsed)
        (fun p => match p with p_frontend => 101%Z | p_engine => 102%Z end)
        0%Z true 0%Z
        (fun _ => 0%Z).

(** An engine handle that takes no message. *)
Definition os_deaf (parsed : option smtpfd_conf) : os_model :=
  mk_os (fun _ _ _ => false)
        (fun _ => Some (7, 8)%Z)
        (fun _ => 200%Z)
        (fun _ => 0%Z) (fun _ => 0%Z)
        (fun _ => true)
        (fun _ _ => parsed)
        (fun p => match p with p_frontend => 101%Z | p_engine => 102%Z end)
        0%Z true 0%Z
        (fun _ => 0%Z).

(** Modelled from the spec: smtpfd.h is not part of the sources; the
    default paths, the run-time account and three distinct option bits, as
    the examples below need them.  The theorems take the header as a
    parameter. *)
Definition header : smtpfd_h :=
  mk_smtpfd_h "/etc/mail/smtpfd.conf" "/var/run/smtpfd.sock" "_smtpfd"
              1%Z 2%Z 4%Z.

(** The globals and the trace of a process that has just started. *)
Definition w_start : world :=
  mk_world [] config_new_empty "" "" 0%Z false [].

(** A running supervisor whose active configuration is [conf]. *)
Definition w_running (conf : smtpfd_conf) : world :=
  mk_world [] conf "/etc/mail/smtpfd.conf" "/var/run/smtpfd.sock" 0%Z false [].

(* ================================================================== *)
(** ** More concrete inputs *)

(** A chain that refers to itself after a leaf. *)
Definition selfish : filter_conf := mk_filter "selfish" true ["virus"; "selfish"].
Definition conf_selfish : smtpfd_conf := mk_conf [virus; selfish].

(** A second entry named [virus], after the first one. *)
Definition virus_again : filter_conf := mk_filter "virus" false ["otherfilter"].

(** The members an entry delivers: its flattening for a chain, its own
    name for a leaf. *)
Definition resolved (conf : smtpfd_conf) (f : filter_conf)
           (out : list string) : Prop :=
  if chain f then flattens conf (argv f) out else out = [name f].

(** The declaration of an entry followed by its members, as kinds. *)
Definition declaration_kinds (fo : filter_conf * list string)
  : list (imsg_type * payload) :=
  (IMSG_RECONF_FILTER, str_data (name (fst fo)))
  :: map (fun n => (IMSG_RECONF_FILTER_NODE, str_data n)) (snd fo).

(** The environment of a supervisor whose [socketpair] and [fork] succeed
    and whose handles take or refuse a message by its type alone. *)
Definition accepts_by_type (os : os_model) (ok : imsg_type -> bool) : Prop :=
  (forall tr p m, compose_accepts os tr p m = ok (hdr_type m))
  /\ (forall tr, exists a b, socketpair_rv os tr = Some (a, b))
  /\ (forall tr, (0 < fork_rv os tr)%Z).

(** An engine handle that refuses the end marker and nothing else. *)
Definition os_no_end (parsed : option smtpfd_conf) : os_model :=
  mk_os (fun _ _ m => match hdr_type m with
                      | IMSG_RECONF_END => false
                      | _ => true
                      end)
        (fun _ => Some (7, 8)%Z)
        (fun _ => 200%Z)
        (fun _ => 0%Z) (fun _ => 0%Z)
        (fun _ => true)
        (fun _ _ => parsed)
        (fun p => match p with p_frontend => 101%Z | p_engine => 102%Z end)
        0%Z true 0%Z
        (fun _ => 0%Z).

(** An environment in which [socketpair] fails. *)
Definition os_no_socketpair (parsed : option smtpfd_conf) : os_model :=
  mk_os (fun _ _ _ => true)
        (fun _ => None)
        (fun _ => 200%Z)
        (fun _ => 0%Z) (fun _ => 0%Z)
        (fun _ => true)
        (fun _ _ => parsed)
        (fun p => match p with p_frontend => 101%Z | p_engine => 102%Z end)
        0%Z true 0%Z
        (fun _ => 0%Z).

(** The child of a fork in which [execvp] fails. *)
Definition os_no_exec : os_model :=
  mk_os (fun _ _ _ => true)
        (fun _ => Some (7, 8)%Z)
        (fun _ => 0%Z)
        (fun _ => 0%Z) (fun _ => 0%Z)
        (fun _ => false)
        (fun _ _ => None)
        (fun p => match p with p_frontend => 101%Z | p_engine => 102%Z end)
        0%Z true 0%Z
        (fun _ => 0%Z).

(** The children reaped so far, with their status. *)
Definition reaped (tr : list event) : list (Z * wstatus) :=
  flat_map (fun e => match e with
                     | E_reaped pid st => [(pid, st)]
                     | _ => []
                     end) tr.

(** The children among the coming answers of [wait]. *)
Definition children_of (ws : list wait_rv) : list (Z * wstatus) :=
  flat_map (fun r => match r with
                     | wait_pid pid st => [(pid, st)]
                     | _ => []
                     end) ws.

(** An answer of [wait] after which both wait loops go round again: a
    child, or an interrupted call. *)
Definition goes_on (r : wait_rv) : bool :=
  match r with
  | wait_pid _ _ | wait_err EINTR => true
  | _ => false
  end.

(** Events of the wait loops: a reaped child or a log line. *)
Definition is_reap_or_log (e : event) : bool :=
  match e with
  | E_reaped _ _ | E_log _ _ _ _ => true
  | _ => false
  end.

(** A configuration that is [c0] or was returned by [parse_config]. *)
Definition from_parser (os : os_model) (c0 c : smtpfd_conf) : Prop :=
  c = c0 \/ exists tr path, parse_config os tr path = Some c.

(** Messages the two handlers only log: every message of the engine, and
    the messages of the frontend whose type is not one of the three the
    handler knows. *)
Definition only_logged (e : loop_event) : bool :=
  match e with
  | ev_engine (Some _) => true
  | ev_frontend (Some m) =>
      match hdr_type m with
      | IMSG_CTL_RELOAD | IMSG_CTL_LOG_VERBOSE | IMSG_CTL_SHOW_MAIN_INFO => false
      | _ => true
      end
  | _ => false
  end.

(** A running supervisor with children to reap. *)
Definition w_children (ws : list wait_rv) : world :=
  mk_world [] conf_virus_all "/etc/mail/smtpfd.conf" "/var/run/smtpfd.sock"
           0%Z false ws.

Definition is_opt_d (o : getopt_rv) : bool :=
  match o with opt_d => true | _ => false end.
Definition is_opt_E (o : getopt_rv) : bool :=
  match o with opt_E => true | _ => false end.
Definition is_opt_F (o : getopt_rv) : bool :=
  match o with opt_F => true | _ => false end.

(** The argument of the last [-f] of the options, [cur] when there is
    none; likewise for [-s]. *)
Fixpoint conffile_after (opts : list getopt_rv) (cur : string) : string :=
  match opts with
  | [] => cur
  | opt_f a :: opts' => conffile_after opts' a
  | _ :: opts' => conffile_after opts' cur
  end.

Fixpoint csock_after (opts : list getopt_rv) (cur : string) : string :=
  match opts with
  | [] => cur
  | opt_s a :: opts' => csock_after opts' a
  | _ :: opts' => csock_after opts' cur
  end.

(** How many times [-v] is given. *)
Definition count_v (opts : list getopt_rv) : nat :=
  List.length (filter is_opt_v opts).


(** The three option bits of smtpfd.h are not empty and do not overlap. *)
Definition flags_disjoint (h : smtpfd_h) : Prop :=
  OPT_NOACTION h <> 0%Z /\ OPT_VERBOSE h <> 0%Z /\ OPT_VERBOSE2 h <> 0%Z
  /\ Z.land (OPT_NOACTION h) (OPT_VERBOSE h) = 0%Z
  /\ Z.land (OPT_VERBOSE h) (OPT_NOACTION h) = 0%Z
  /\ Z.land (OPT_VERBOSE2 h) (OPT_NOACTION h) = 0%Z
  /\ Z.land (OPT_NOACTION h) (OPT_VERBOSE2 h) = 0%Z
  /\ Z.land (OPT_VERBOSE h) (OPT_VERBOSE2 h) = 0%Z
  /\ Z.land (OPT_VERBOSE2 h) (OPT_VERBOSE h) = 0%Z.

(** The number of line-end characters in a text. *)
Fixpoint line_ends (s : string) : nat :=
  match s with
  | EmptyString => 0
  | String c s' =>
      (if Ascii.eqb c (Ascii.ascii_of_nat 10) then 1 else 0) + line_ends s'
  end.

(** The number of line-end characters written to stdout. *)
Definition newlines (tr : list event) : nat :=
  list_sum (map (fun e => match e with
                          | E_print stdout t => line_ends t
                          | _ => 0
                          end) tr).

(** The line-end characters inside the names and the arguments of the
    entries of a configuration. *)
Definition inner_line_ends (c : smtpfd_conf) : nat :=
  list_sum (map (fun f => line_ends (name f)
                          + list_sum (map line_ends (argv f)))
                (filters c)).

(** A leaf whose argument holds a line end, after a plain one. *)
Definition conf_two_lines : smtpfd_conf :=
  mk_conf [virus; mk_filter "odd" false [("a" ++ nl ++ "b")%string]].

(** A chain over [A, B] of the nested configuration with a reference
    between them that names no entry. *)
Definition spooked : filter_conf := mk_filter "spooked" true ["A"; "ghost"; "B"].

(* ================================================================== *)
(** * Properties *)

(** ** Worlds, traces and the monad *)

Lemma pushes_nil (w : world) : pushes [] w = w.
Proof. destruct w; unfold pushes; simpl; now rewrite app_nil_r. Qed.

Lemma pushes_pushes (a b : list event) (w : world) :
  pushes b (pushes a w) = pushes (a ++ b) w.
Proof. unfold pushes; simpl; now rewrite app_assoc. Qed.

Lemma push_as_pushes (e : event) (w : world) : push e w = pushes [e] w.
Proof. reflexivity. Qed.

Lemma returns_bind {A B : Type} (m : M A) (k : A -> M B) (w : world) :
  returns (bind m k w) <->
  exists a w1, m w = Ret a w1 /\ returns (k a w1).
Proof.
  unfold bind, returns. split.
  - intros (b & w2 & E). destruct (m w) as [a w1 | hh w1 | w1] eqn:Em;
      try discriminate.
    exists a, w1. split; [reflexivity | now exists b, w2].
  - intros (a & w1 & Em & b & w2 & E). rewrite Em. now exists b, w2.
Qed.

Lemma bind_Ret {A B : Type} (m : M A) (k : A -> M B) (w w1 : world) (a : A) :
  m w = Ret a w1 -> bind m k w = k a w1.
Proof. intros E. unfold bind. now rewrite E. Qed.

Lemma foreach_app {A : Type} (l1 l2 : list A) (body : A -> M unit) (w : world) :
  foreach (l1 ++ l2) body w = (foreach l1 body ;; foreach l2 body) w.
Proof.
  revert w. induction l1 as [| x l1 IH]; intros w; simpl.
  - reflexivity.
  - unfold bind in *. destruct (body x w) as [[] w1 | hh w1 | w1];
      try reflexivity.
    apply IH.
Qed.

(** ** The lookup loop of the resolver *)

Section Resolver.

Variable os : os_model.
Variable conf : smtpfd_conf.

Lemma send_first_named_find (rec : filter_conf -> M unit)
      (l : list filter_conf) (arg : string) :
  send_first_named rec l arg =
  match find (fun e => String.eqb arg (name e)) l with
  | Some e => rec e
  | None => ret tt
  end.
Proof.
  induction l as [| tmp l IH]; simpl.
  - reflexivity.
  - destruct (String.eqb arg (name tmp)); [reflexivity | exact IH].
Qed.

Lemma absent_entry_of (n : string) :
  (forall e, In e (filters conf) -> name e <> n) -> entry_of conf n = None.
Proof.
  unfold entry_of. induction (filters conf) as [| e l IH]; intros H; simpl.
  - reflexivity.
  - destruct (String.eqb n (name e)) eqn:E.
    + apply String.eqb_eq in E. exfalso. apply (H e); [now left | now symmetry].
    + apply IH. intros e' He'. apply H. now right.
Qed.

Lemma entry_of_in (n : string) (e : filter_conf) :
  entry_of conf n = Some e -> In e (filters conf) /\ name e = n.
Proof.
  unfold entry_of. intros H. apply find_some in H. destruct H as [H1 H2].
  apply String.eqb_eq in H2. now split.
Qed.

(** One reference of a chain: looked up, then resolved or passed over. *)
Lemma reference_step (depth : nat) (n : string) :
  send_first_named (priv_send_filter_conf os depth conf) (filters conf) n =
  match entry_of conf n with
  | Some e => priv_send_filter_conf os depth conf e
  | None => ret tt
  end.
Proof. apply send_first_named_find. Qed.

(** *** Termination against the nesting depth *)

Lemma resolver_returns_iff (f : filter_conf) (d : nat) :
  nesting conf f d ->
  forall depth w,
    returns (priv_send_filter_conf os depth conf f w) <-> d < depth.
Proof.
  intros N.
  induction N using nesting_mut with
    (P0 := fun refs d _ =>
             forall depth w,
               returns (foreach refs
                          (send_first_named (priv_send_filter_conf os depth conf)
                                            (filters conf)) w)
               <-> d <= depth).
  - (* a leaf *)
    intros [| k] w; simpl.
    + split; [intros (a & w' & E); discriminate | lia].
    + rewrite e. split; [lia |]. intros _.
      unfold bind, proc_compose, ret.
      destruct (compose_accepts os (trace w) p_engine _);
        eexists; eexists; reflexivity.
  - (* a chain *)
    intros [| k] w; simpl.
    + split; [intros (a & w' & E); discriminate | lia].
    + rewrite e. rewrite IHN. lia.
  - intros depth w; simpl. split; [lia |]. intros _. now exists tt, w.
  - intros depth w; simpl. rewrite returns_bind, reference_step, e.
    split.
    + intros (a & w1 & E & R). inversion E; subst. now apply IHN in R.
    + intros L. exists tt, w. split; [reflexivity | now apply IHN].
  - intros depth w; cbn [foreach]. rewrite returns_bind, reference_step, e0.
    split.
    + intros (a & w1 & E & R).
      assert (d1 < depth) by (apply (IHN depth w); now exists a, w1).
      apply IHN0 in R. lia.
    + intros L.
      destruct (proj2 (IHN depth w)) as (a & w1 & E); [lia |].
      exists a, w1. split; [exact E |]. apply IHN0. lia.
Qed.

(** The resolver never exits the process. *)
Lemma resolver_no_halt (depth : nat) :
  forall f w hh w', priv_send_filter_conf os depth conf f w <> Halt hh w'.
Proof.
  induction depth as [| k IH]; intros f w hh w'; simpl.
  - discriminate.
  - destruct (chain f).
    + revert w. induction (argv f) as [| n refs IHr]; intros w; simpl.
      * discriminate.
      * unfold bind at 1. rewrite reference_step.
        destruct (entry_of conf n) as [e |].
        -- destruct (priv_send_filter_conf os k conf e w) as [[] w1 | h1 w1 | w1] eqn:E.
           ++ apply IHr.
           ++ exfalso. exact (IH _ _ _ _ E).
           ++ discriminate.
        -- simpl. apply IHr.
    + unfold bind, proc_compose, ret.
      destruct (compose_accepts os (trace w) p_engine _); discriminate.
Qed.

End Resolver.

(** ** What a run adds to the trace *)

Lemma only_adds_ret {A : Type} (P : event -> Prop) (a : A) :
  only_adds P (ret a).
Proof. intros w. exists []. simpl. now rewrite pushes_nil. Qed.

Lemma only_adds_emit (P : event -> Prop) (e : event) :
  P e -> only_adds P (emit e).
Proof. intros H w. exists [e]. split; [reflexivity | now constructor]. Qed.

Lemma only_adds_stop {A : Type} (P : event -> Prop) (hh : halt) :
  only_adds P (@stop A hh).
Proof. intros w. exists []. simpl. now rewrite pushes_nil. Qed.

Lemma only_adds_bind {A B : Type} (P : event -> Prop)
      (m : M A) (k : A -> M B) :
  only_adds P m -> (forall a, only_adds P (k a)) -> only_adds P (bind m k).
Proof.
  intros Hm Hk w. unfold bind.
  destruct (Hm w) as (d1 & E1 & F1).
  destruct (m w) as [a w1 | hh w1 | w1]; simpl in E1; subst w1.
  - destruct (Hk a (pushes d1 w)) as (d2 & E2 & F2).
    exists (d1 ++ d2). rewrite E2, pushes_pushes.
    split; [reflexivity | now apply Forall_app].
  - now exists d1.
  - now exists d1.
Qed.

Lemma only_adds_foreach {A : Type} (P : event -> Prop)
      (l : list A) (body : A -> M unit) :
  (forall x, In x l -> only_adds P (body x)) -> only_adds P (foreach l body).
Proof.
  induction l as [| x l IH]; intros H; simpl.
  - apply only_adds_ret.
  - apply only_adds_bind.
    + apply H. now left.
    + intros _. apply IH. intros y Hy. apply H. now right.
Qed.

Lemma only_adds_weaken {A : Type} (P Q : event -> Prop) (m : M A) :
  (forall e, P e -> Q e) -> only_adds P m -> only_adds Q m.
Proof.
  intros HPQ Hm w. destruct (Hm w) as (d & E & F).
  exists d. split; [exact E |]. eapply Forall_impl; eauto.
Qed.

Lemma only_adds_compose (os : os_model) (P : event -> Prop)
      (p : imsgproc) (m : imsg) :
  P (E_compose p m) -> only_adds P (proc_compose os p m).
Proof.
  intros H w. unfold proc_compose.
  destruct (compose_accepts os (trace w) p m).
  - exists [E_compose p m]. split; [reflexivity | now constructor].
  - exists []. simpl. now rewrite pushes_nil.
Qed.

Lemma only_adds_fatal {A : Type} (P : event -> Prop)
      (text : string) (strs : list string) :
  P (E_log LOG_fatal text strs []) -> only_adds P (@fatal A text strs).
Proof.
  intros H. unfold fatal, exit. apply only_adds_bind.
  - now apply only_adds_emit.
  - intros _. apply only_adds_stop.
Qed.

Lemma only_adds_env {A : Type} (P : event -> Prop) (m : M A) (w : world) :
  only_adds P m -> env (world_of (m w)) = env w.
Proof. intros H. destruct (H w) as (d & E & _). now rewrite E. Qed.

(** The resolver adds member messages and nothing else, however it ends. *)
Lemma resolver_only_adds (os : os_model) (conf : smtpfd_conf) (depth : nat) :
  forall f, only_adds is_node (priv_send_filter_conf os depth conf f).
Proof.
  induction depth as [| k IH]; intros f; simpl.
  - intros w. exists []. simpl. now rewrite pushes_nil.
  - destruct (chain f).
    + apply only_adds_foreach. intros n _. rewrite reference_step.
      destruct (entry_of conf n); [apply IH | apply only_adds_ret].
    + apply only_adds_bind.
      * apply only_adds_compose. now exists (name f).
      * intros _. apply only_adds_ret.
Qed.

(** ** The resolver against the flattening *)

Section Flattening.

Variable os : os_model.
Variable conf : smtpfd_conf.
Hypothesis accepts : forall tr p m, compose_accepts os tr p m = true.

Lemma compose_accepted (p : imsgproc) (m : imsg) (w : world) :
  proc_compose os p m w = Ret 0%Z (push (E_compose p m) w).
Proof. unfold proc_compose. now rewrite accepts. Qed.

Lemma resolver_chain (k : nat) (f : filter_conf) :
  chain f = true ->
  priv_send_filter_conf os (S k) conf f =
  foreach (argv f) (send_first_named (priv_send_filter_conf os k conf)
                                     (filters conf)).
Proof. intros H. simpl. now rewrite H. Qed.

Lemma resolver_leaf (k : nat) (f : filter_conf) (w : world) :
  chain f = false ->
  priv_send_filter_conf os (S k) conf f w = Ret tt (push (node_event (name f)) w).
Proof.
  intros H. simpl. rewrite H. unfold bind. now rewrite compose_accepted.
Qed.

Lemma flattening_is_delivered (refs out : list string) :
  flattens conf refs out ->
  exists d0, forall depth, d0 <= depth -> forall w,
    foreach refs (send_first_named (priv_send_filter_conf os depth conf)
                                   (filters conf)) w
    = Ret tt (pushes (map node_event out) w).
Proof.
  induction 1 as [| n e refs out He Hc _ (d2 & IH2)
                  | n e refs inner out He Hc _ (d1 & IH1) _ (d2 & IH2)].
  - exists 0. intros depth _ w. simpl. unfold ret. now rewrite pushes_nil.
  - exists (Nat.max 1 d2). intros depth Hd w. cbn [foreach].
    unfold bind. rewrite reference_step, He.
    destruct depth as [| k]; [lia |].
    rewrite resolver_leaf by exact Hc. rewrite IH2 by lia.
    change (push (node_event (name e)) w)
      with (pushes [node_event (name e)] w).
    now rewrite pushes_pushes.
  - exists (Nat.max (S d1) d2). intros depth Hd w. cbn [foreach].
    unfold bind. rewrite reference_step, He.
    destruct depth as [| k]; [lia |].
    rewrite resolver_chain by exact Hc. rewrite IH1 by lia.
    rewrite IH2 by lia.
    now rewrite pushes_pushes, map_app.
Qed.

Hypothesis resolve : names_resolve conf = true.

Lemma references_resolve (f : filter_conf) (n : string) :
  In f (filters conf) -> chain f = true -> In n (argv f) ->
  exists e, entry_of conf n = Some e.
Proof.
  intros Hf Hc Hn. unfold names_resolve in resolve.
  rewrite forallb_forall in resolve. specialize (resolve f Hf).
  rewrite Hc in resolve. simpl in resolve.
  rewrite forallb_forall in resolve. specialize (resolve n Hn).
  destruct (entry_of conf n) as [e |]; [now exists e | discriminate].
Qed.

Lemma delivered_is_flattening (depth : nat) :
  forall f w w',
    In f (filters conf) ->
    priv_send_filter_conf os depth conf f w = Ret tt w' ->
    exists out,
      w' = pushes (map node_event out) w
      /\ (if chain f then flattens conf (argv f) out else out = [name f]).
Proof.
  induction depth as [| k IH]; intros f w w' Hf; simpl.
  - discriminate.
  - destruct (chain f) eqn:Hc.
    + assert (Hr : forall n, In n (argv f) -> exists e, entry_of conf n = Some e)
        by (intros n Hn; now apply (references_resolve f)).
      revert w Hr. induction (argv f) as [| n refs IHr]; intros w Hr; simpl.
      * intros E. inversion E; subst. exists []. simpl.
        split; [now rewrite pushes_nil | constructor].
      * unfold bind at 1. rewrite reference_step.
        destruct (Hr n (or_introl eq_refl)) as (e & He). rewrite He.
        destruct (priv_send_filter_conf os k conf e w) as [[] w1 | hh w1 | w1] eqn:E1;
          try discriminate.
        intros E2.
        destruct (entry_of_in conf n e He) as [Hin _].
        destruct (IH e w w1 Hin E1) as (out1 & -> & R1).
        destruct (IHr (pushes (map node_event out1) w)) as (out2 & -> & R2);
          [intros m Hm; apply Hr; now right | exact E2 |].
        rewrite pushes_pushes, <- map_app.
        destruct (chain e) eqn:Hce.
        -- exists (out1 ++ out2). split; [reflexivity |].
           now apply flattens_chain with (e := e).
        -- subst out1. exists (name e :: out2). split; [reflexivity |].
           now apply flattens_leaf.
    + unfold bind. rewrite compose_accepted. unfold ret.
      intros E. inversion E; subst. exists [name f].
      split; reflexivity.
Qed.

End Flattening.

(* ================================================================== *)
(** ** Chain resolution *)

Lemma node_events_inj (a b : list string) :
  map node_event a = map node_event b -> a = b.
Proof.
  revert b. induction a as [| x a IH]; intros [| y b] H; simpl in H;
    try discriminate.
  - reflexivity.
  - inversion H. f_equal. now apply IH.
Qed.

(** C2.  In a configuration where every name a chain refers to is the name
    of an entry, and while the engine handle takes the messages, what
    [priv_send_filter_conf] sends for a chain [f] right after the chain's
    declaration is the member message of every name of the depth-first,
    order-preserving flattening of [f]'s reference list, and nothing else:
    the resolver returns having sent the members [out] exactly when [out]
    is that flattening. *)
Theorem chain_members_are_the_flattening
        (os : os_model) (conf : smtpfd_conf) (f : filter_conf)
        (w : world) (out : list string) :
  (forall tr p m, compose_accepts os tr p m = true) ->
  names_resolve conf = true ->
  In f (filters conf) ->
  chain f = true ->
  (exists depth w',
      priv_send_filter_conf os depth conf f w = Ret tt w'
      /\ trace w' = trace w ++ map node_event out)
  <-> flattens conf (argv f) out.
Proof.
  intros Ha Hr Hf Hc. split.
  - intros (depth & w' & E & T).
    destruct (delivered_is_flattening os conf Ha Hr depth f w w' Hf E)
      as (out0 & -> & R).
    rewrite Hc in R. simpl in T. apply app_inv_head in T.
    apply node_events_inj in T. now subst.
  - intros F.
    destruct (flattening_is_delivered os conf Ha _ _ F) as (d0 & H).
    exists (S d0), (pushes (map node_event out) w).
    rewrite (resolver_chain os conf d0 f Hc). split; [| reflexivity].
    now apply H.
Qed.

Lemma chain_members_are_the_flattening_witness :
  flattens conf_nested (argv top) ["A"; "C"; "D"].
Proof.
  apply (proj1 (chain_members_are_the_flattening
                  (os_with 200 None) conf_nested top w_start ["A"; "C"; "D"]
                  (fun _ _ _ => eq_refl) eq_refl
                  (or_intror (or_intror (or_intror (or_intror (or_introl eq_refl)))))
                  eq_refl)).
  exists 3. eexists. split; [vm_compute; reflexivity | reflexivity].
Defined.

(** The nested chain of the specification: [top] over [A, B], [B] over
    [C, D], delivers the members A, C, D. *)
Example nested_chain_delivers_A_C_D :
  names_sent IMSG_RECONF_FILTER_NODE
    (trace (world_of (priv_send_filter_conf (os_with 200 None) 3
                        conf_nested top w_start)))
  = ["A"; "C"; "D"].
Proof. reflexivity. Qed.

Lemma flattens_app (conf : smtpfd_conf) (a b out1 out2 : list string) :
  flattens conf a out1 -> flattens conf b out2 ->
  flattens conf (a ++ b) (out1 ++ out2).
Proof.
  induction 1 as [| n e refs out He Hc _ IH
                  | n e refs inner out He Hc Hi _ _ IH]; intros Hb.
  - exact Hb.
  - cbn [app]. now apply (flattens_leaf conf n e); [| | apply IH].
  - cbn [app]. rewrite <- app_assoc.
    now apply (flattens_chain conf n e); [| | | apply IH].
Qed.

Lemma absent_reference_same_run
      (os : os_model) (conf : smtpfd_conf) (depth : nat)
      (f : filter_conf) (before after : list string) (n : string)
      (w : world) :
  chain f = true ->
  argv f = before ++ n :: after ->
  ~ In n (map name (filters conf)) ->
  priv_send_filter_conf os depth conf f w
  = priv_send_filter_conf os depth conf
      (mk_filter (name f) true (before ++ after)) w.
Proof.
  intros Hc Ha Hn. destruct depth as [| k]; [reflexivity |].
  cbn [priv_send_filter_conf chain argv]. rewrite Hc, Ha.
  rewrite !foreach_app. unfold bind.
  destruct (foreach before _ w) as [[] w1 | hh w1 | w1]; try reflexivity.
  cbn [foreach]. unfold bind. rewrite reference_step.
  rewrite absent_entry_of; [reflexivity |].
  intros e He Hne. apply Hn. rewrite <- Hne. now apply in_map.
Qed.

(** C8.  A reference of a chain that names no entry of the configuration
    is passed over.  Let the chain refer to [before], then to the absent
    name [n], then to [after].  When the engine takes the messages and
    the references around [n] resolve, [before] to the leaves [out1] and
    [after] to the leaves [out2], the call returns, nothing having
    failed, and what it has sent is exactly the member messages of
    [out1] followed by those of [out2]: nothing for [n], and the members
    after it in their order.  And in every environment and at every
    depth, however the other references resolve, the run on the chain is
    the run on the same chain without that reference. *)
Theorem absent_reference_is_skipped
        (os : os_model) (conf : smtpfd_conf)
        (f : filter_conf) (before after : list string) (n : string)
        (w : world) :
  chain f = true ->
  argv f = before ++ n :: after ->
  ~ In n (map name (filters conf)) ->
  (forall out1 out2,
      (forall tr p m, compose_accepts os tr p m = true) ->
      flattens conf before out1 ->
      flattens conf after out2 ->
      exists depth w',
        priv_send_filter_conf os depth conf f w = Ret tt w'
        /\ trace w'
           = trace w ++ map node_event out1 ++ map node_event out2)
  /\ (forall depth,
        priv_send_filter_conf os depth conf f w
        = priv_send_filter_conf os depth conf
            (mk_filter (name f) true (before ++ after)) w).
Proof.
  intros Hc Ha Hn. split.
  - intros out1 out2 Hacc F1 F2.
    destruct (flattening_is_delivered os conf Hacc _ _
                (flattens_app conf _ _ _ _ F1 F2)) as (d0 & H).
    exists (S d0), (pushes (map node_event (out1 ++ out2)) w).
    rewrite (absent_reference_same_run os conf (S d0) f before after n w Hc Ha Hn).
    rewrite (resolver_chain os conf d0
               (mk_filter (name f) true (before ++ after)) eq_refl).
    cbn [argv].
    split; [now apply H |].
    cbn [pushes trace]. now rewrite map_app.
  - intros depth. now apply (absent_reference_same_run os conf depth f before after n).
Qed.

Lemma absent_reference_is_skipped_witness :
  exists depth w',
    priv_send_filter_conf (os_with 200 None) depth conf_nested spooked w_start
    = Ret tt w'
    /\ trace w'
       = trace w_start ++ map node_event ["A"] ++ map node_event ["C"; "D"].
Proof.
  apply (proj1 (absent_reference_is_skipped
                  (os_with 200 None) conf_nested spooked ["A"] ["B"] "ghost"
                  w_start eq_refl eq_refl
                  ltac:(simpl; intuition discriminate))
               ["A"] ["C"; "D"] (fun _ _ _ => eq_refl)).
  - exact (flattens_leaf conf_nested "A" (mk_filter "A" false ["a"]) [] []
             eq_refl eq_refl (flattens_nil conf_nested)).
  - exact (flattens_chain conf_nested "B" (mk_filter "B" true ["C"; "D"]) []
             ["C"; "D"] [] eq_refl eq_refl
             (flattens_leaf conf_nested "C" (mk_filter "C" false ["c"]) ["D"] ["D"]
                eq_refl eq_refl
                (flattens_leaf conf_nested "D" (mk_filter "D" false ["d"]) [] []
                   eq_refl eq_refl (flattens_nil conf_nested)))
             (flattens_nil conf_nested)).
Defined.

(** C5, as the code has it.  For an entry whose chain nesting depth is
    [d] (so no chain under it reaches itself) the resolution returns, and
    its recursion is exactly [d] activations deep below the first one:
    [d + 1] nested activations are enough and [d] are not. *)
Theorem resolution_depth_is_nesting_depth
        (os : os_model) (conf : smtpfd_conf) (f : filter_conf) (d : nat)
        (w : world) :
  nesting conf f d ->
  (forall depth, d < depth ->
     exists w', priv_send_filter_conf os depth conf f w = Ret tt w')
  /\ (forall depth, depth <= d ->
        exists w', priv_send_filter_conf os depth conf f w = Deeper w').
Proof.
  intros N. split; intros depth Hd.
  - destruct (proj2 (resolver_returns_iff os conf f d N depth w) Hd)
      as ([] & w' & E).
    now exists w'.
  - destruct (priv_send_filter_conf os depth conf f w) as [a w' | hh w' | w'] eqn:E.
    + assert (d < depth)
        by (apply (resolver_returns_iff os conf f d N depth w); now exists a, w').
      lia.
    + exfalso. exact (resolver_no_halt os conf depth f w hh w' E).
    + now exists w'.
Qed.

Lemma resolution_depth_is_nesting_depth_witness :
  (exists w', priv_send_filter_conf (os_with 200 None) 2 conf_virus_all all w_start
              = Ret tt w')
  /\ (exists w', priv_send_filter_conf (os_with 200 None) 1 conf_virus_all all w_start
                 = Deeper w').
Proof.
  assert (N : nesting conf_virus_all all 1).
  { apply nesting_chain; [reflexivity |].
    exact (nesting_member conf_virus_all "virus" virus [] 0 0 eq_refl
             (nesting_leaf conf_virus_all virus eq_refl)
             (nesting_none conf_virus_all)). }
  destruct (resolution_depth_is_nesting_depth
              (os_with 200 None) conf_virus_all all 1 w_start N) as [H1 H2].
  split; [apply H1 | apply H2]; lia.
Defined.

Lemma cycle_is_deeper (os : os_model) (depth : nat) :
  forall w,
    priv_send_filter_conf os depth conf_cycle ping w = Deeper w
    /\ priv_send_filter_conf os depth conf_cycle pong w = Deeper w.
Proof.
  induction depth as [| k IH]; intros w.
  - split; reflexivity.
  - destruct (IH w) as [H1 H2]. split.
    + rewrite resolver_chain by reflexivity. cbn [argv ping foreach].
      unfold bind. rewrite reference_step.
      change (entry_of conf_cycle "pong") with (Some pong). cbv beta iota.
      now rewrite H2.
    + rewrite resolver_chain by reflexivity. cbn [argv pong foreach].
      unfold bind. rewrite reference_step.
      change (entry_of conf_cycle "ping") with (Some ping). cbv beta iota.
      now rewrite H1.
Qed.

(** C5 fails on a cycle: with [ping] over [pong] and [pong] over [ping],
    no depth of recursion lets the resolution of [ping] return. *)
Lemma resolution_of_a_cycle_never_returns :
  ~ (exists depth,
        returns (priv_send_filter_conf (os_with 200 None) depth
                                       conf_cycle ping w_start)).
Proof.
  intros (depth & a & w' & E).
  rewrite (proj1 (cycle_is_deeper (os_with 200 None) depth w_start)) in E.
  discriminate.
Qed.

(* ================================================================== *)
(** ** Distribution *)

Lemma engine_msgs_app (a b : list event) :
  engine_msgs (a ++ b) = engine_msgs a ++ engine_msgs b.
Proof. apply flat_map_app. Qed.

Lemma forked_app (a b : list event) : forked (a ++ b) = forked a ++ forked b.
Proof. apply flat_map_app. Qed.

Lemma names_sent_app (t : imsg_type) (a b : list event) :
  names_sent t (a ++ b) = names_sent t a ++ names_sent t b.
Proof. unfold names_sent. rewrite engine_msgs_app. apply flat_map_app. Qed.

Lemma nodes_fork_nothing (d : list event) : Forall is_node d -> forked d = [].
Proof.
  induction 1 as [| e d (n & ->) _ IH]; [reflexivity | exact IH].
Qed.

Lemma nodes_declare_nothing (d : list event) :
  Forall is_node d ->
  names_sent IMSG_RECONF_FILTER d = []
  /\ names_sent IMSG_RECONF_FILTER_PROC d = [].
Proof.
  induction 1 as [| e d (n & ->) _ [IH1 IH2]]; [now split |].
  split; [exact IH1 | exact IH2].
Qed.

Section Distribution.

Variable os : os_model.
Hypothesis fine : nothing_fails os.

Let accepts : forall tr p m, compose_accepts os tr p m = true := proj1 fine.

(** The parent's side of [priv_send_filter_proc]. *)
Lemma spawn_in_parent (f : filter_conf) (w : world) :
  exists delta,
    priv_send_filter_proc os f w = Ret tt (pushes delta w)
    /\ forked delta = [f]
    /\ map kind_of (engine_msgs delta)
       = [(IMSG_RECONF_FILTER_PROC, str_data (name f))]
    /\ names_sent IMSG_RECONF_FILTER_PROC delta = [name f]
    /\ names_sent IMSG_RECONF_FILTER delta = [].
Proof.
  pose proof fine as (_ & Hs & Hf).
  unfold priv_send_filter_proc, bind, socketpair.
  destruct (Hs (trace w)) as (a & b & Es). rewrite Es.
  unfold fork. set (w1 := push (E_socketpair a b) w).
  pose proof (Hf (trace w1)) as Hpid.
  set (pid := fork_rv os (trace w1)) in *.
  assert (E1 : (0 <? pid)%Z = true) by now apply Z.ltb_lt.
  assert (E2 : (pid =? -1)%Z = false) by (apply Z.eqb_neq; lia).
  assert (E3 : (pid =? 0)%Z = false) by (apply Z.eqb_neq; lia).
  rewrite E1, E2, E3. unfold emit, log_debug, emit.
  rewrite (compose_accepted os accepts). unfold ret.
  exists [E_socketpair a b; E_fork pid f; E_close a;
          E_log LOG_debug "forked filter %s as pid %d" [name f] [pid];
          E_compose p_engine
            (mk_imsg IMSG_RECONF_FILTER_PROC 0 pid b (str_data (name f)))].
  split; [| repeat split; reflexivity].
  unfold w1, push, pushes. simpl. now rewrite <- !app_assoc.
Qed.

(** The first loop of [priv_send_config]. *)
Lemma spawn_loop (l : list filter_conf) :
  forall w, exists delta,
    foreach l (fun f => if chain f then ret tt
                        else priv_send_filter_proc os f) w
    = Ret tt (pushes delta w)
    /\ forked delta = filter (fun f => negb (chain f)) l
    /\ map kind_of (engine_msgs delta)
       = map (fun f => (IMSG_RECONF_FILTER_PROC, str_data (name f)))
             (filter (fun f => negb (chain f)) l)
    /\ names_sent IMSG_RECONF_FILTER_PROC delta
       = map name (filter (fun f => negb (chain f)) l)
    /\ names_sent IMSG_RECONF_FILTER delta = [].
Proof.
  induction l as [| f l IH]; intros w; simpl.
  - exists []. unfold ret. now rewrite pushes_nil.
  - unfold bind. destruct (chain f); simpl.
    + apply IH.
    + destruct (spawn_in_parent f w) as (d1 & -> & F1 & K1 & P1 & N1).
      destruct (IH (pushes d1 w)) as (d2 & -> & F2 & K2 & P2 & N2).
      exists (d1 ++ d2).
      rewrite pushes_pushes, forked_app, !names_sent_app, engine_msgs_app,
        map_app, F1, F2, K1, K2, P1, P2, N1, N2.
      now repeat split.
Qed.

(** The second loop, when the resolver returns for every entry. *)
Lemma declare_loop (depth : nat) (conf : smtpfd_conf) (l : list filter_conf) :
  (forall f w, In f l -> returns (priv_send_filter_conf os depth conf f w)) ->
  forall w, exists delta,
    foreach l (fun f =>
                 proc_compose os p_engine
                   (mk_imsg IMSG_RECONF_FILTER 0 0 (-1) (str_data (name f))) ;;
                 priv_send_filter_conf os depth conf f) w
    = Ret tt (pushes delta w)
    /\ forked delta = []
    /\ names_sent IMSG_RECONF_FILTER_PROC delta = []
    /\ names_sent IMSG_RECONF_FILTER delta = map name l.
Proof.
  induction l as [| f l IH]; intros Hl w; cbn [foreach].
  - exists []. unfold ret. now rewrite pushes_nil.
  - set (w1 := push (E_compose p_engine
                       (mk_imsg IMSG_RECONF_FILTER 0 0 (-1) (str_data (name f))))
                    w).
    destruct (Hl f w1 (or_introl eq_refl)) as ([] & w2 & E).
    destruct (resolver_only_adds os conf depth f w1) as (d & Ew & Fd).
    rewrite E in Ew. simpl in Ew. subst w2.
    destruct (IH (fun g w0 Hg => Hl g w0 (or_intror Hg)) (pushes d w1))
      as (d2 & E2 & F2 & P2 & N2).
    erewrite bind_Ret;
      [| erewrite bind_Ret; [exact E | apply (compose_accepted os accepts)]].
    rewrite E2.
    destruct (nodes_declare_nothing d Fd) as [Nd Pd].
    exists ((E_compose p_engine
               (mk_imsg IMSG_RECONF_FILTER 0 0 (-1) (str_data (name f)))
             :: d) ++ d2).
    split; [| split; [| split]].
    + unfold w1. rewrite pushes_pushes.
      change (push ?e w) with (pushes [e] w). now rewrite pushes_pushes.
    + rewrite forked_app, F2. simpl. now rewrite (nodes_fork_nothing d Fd).
    + rewrite names_sent_app, P2.
      change (names_sent IMSG_RECONF_FILTER_PROC (?e :: d))
        with (names_sent IMSG_RECONF_FILTER_PROC d).
      now rewrite Pd.
    + rewrite names_sent_app, N2.
      change (names_sent IMSG_RECONF_FILTER (?e :: d))
        with (name f :: names_sent IMSG_RECONF_FILTER d).
      now rewrite Nd.
Qed.

End Distribution.

(** A depth that is enough for every entry of an acyclic configuration. *)
Lemma acyclic_depth (os : os_model) (conf : smtpfd_conf) :
  acyclic conf ->
  exists depth, forall f w,
      In f (filters conf) -> returns (priv_send_filter_conf os depth conf f w).
Proof.
  unfold acyclic. induction (filters conf) as [| g l IH]; intros H.
  - exists 0. intros f w [].
  - destruct IH as (D & HD); [intros f Hf; apply H; now right |].
    destruct (H g (or_introl eq_refl)) as (d & N).
    pose proof (resolver_returns_iff os conf) as R.
    exists (Nat.max (S d) D). intros f w [<- | Hf].
    + apply (R _ _ N). lia.
    + destruct (H f (or_intror Hf)) as (d' & N').
      apply (R _ _ N').
      assert (d' < D) by (apply (R _ _ N' D w); now apply HD). lia.
Qed.

Lemma no_fork_added (d : list event) :
  Forall (fun e => forked [e] = []) d -> forked d = [].
Proof.
  induction 1 as [| e d He _ IH]; [reflexivity |].
  change (forked (e :: d)) with (forked ([e] ++ d)).
  now rewrite forked_app, He, IH.
Qed.

(** What follows the first loop of [priv_send_config] forks nothing,
    however it ends. *)
Lemma declarations_fork_nothing (os : os_model) (depth : nat)
      (conf : smtpfd_conf) :
  only_adds (fun e => forked [e] = [])
    (foreach (filters conf)
             (fun f =>
                proc_compose os p_engine
                  (mk_imsg IMSG_RECONF_FILTER 0 0 (-1) (str_data (name f))) ;;
                priv_send_filter_conf os depth conf f) ;;
     r <- proc_compose os p_engine (mk_imsg IMSG_RECONF_END 0 0 (-1) no_data) ;;
     if (r =? -1)%Z then ret (-1)%Z else ret 0%Z).
Proof.
  apply only_adds_bind.
  - apply only_adds_foreach. intros f _. apply only_adds_bind.
    + now apply only_adds_compose.
    + intros _. apply (only_adds_weaken is_node).
      * now intros e (n & ->).
      * apply resolver_only_adds.
  - intros _. apply only_adds_bind.
    + now apply only_adds_compose.
    + intros r. destruct (r =? -1)%Z; apply only_adds_ret.
Qed.

(** C3, as the code has it.  While nothing fails in the environment,
    [priv_send_config] forks one filter process for every leaf of the configuration, in insertion
    order, and none for a chain, whatever the chains refer to and however
    the resolution that follows ends; and on a configuration in which no
    chain reaches itself it returns 0 having announced each of these
    processes once and having declared every entry, leaf or chain, exactly
    once, in insertion order. *)
Theorem one_spawn_per_leaf_one_declaration_per_entry
        (os : os_model) (conf : smtpfd_conf) (w : world) :
  nothing_fails os ->
  (forall depth, exists delta,
      world_of (priv_send_config os depth conf w) = pushes delta w
      /\ forked delta = leaves conf)
  /\ (acyclic conf ->
      exists depth delta,
        priv_send_config os depth conf w = Ret 0%Z (pushes delta w)
        /\ forked delta = leaves conf
        /\ names_sent IMSG_RECONF_FILTER_PROC delta = map name (leaves conf)
        /\ names_sent IMSG_RECONF_FILTER delta = map name (filters conf)).
Proof.
  intros fine. pose proof (proj1 fine) as accepts.
  set (begin := E_compose p_engine (mk_imsg IMSG_RECONF_CONF 0 0 (-1) no_data)).
  destruct (spawn_loop os fine (filters conf) (push begin w))
    as (d1 & E1 & F1 & _ & P1 & N1).
  split.
  - intros depth. unfold priv_send_config.
    erewrite bind_Ret by apply (compose_accepted os accepts).
    change (0 =? -1)%Z with false. cbv iota.
    erewrite bind_Ret by exact E1.
    destruct (declarations_fork_nothing os depth conf (pushes d1 (push begin w)))
      as (d2 & E2 & F2).
    rewrite E2. exists ((begin :: d1) ++ d2). split.
    + change (push begin w) with (pushes [begin] w). now rewrite !pushes_pushes.
    + rewrite forked_app, (no_fork_added d2 F2), app_nil_r. exact F1.
  - intros Hac. destruct (acyclic_depth os conf Hac) as (depth & Hd).
    destruct (declare_loop os fine depth conf (filters conf) Hd
                (pushes d1 (push begin w))) as (d2 & E2 & F2 & P2 & N2).
    set (done := E_compose p_engine (mk_imsg IMSG_RECONF_END 0 0 (-1) no_data)).
    exists depth, ((begin :: d1) ++ d2 ++ [done]).
    unfold priv_send_config.
    erewrite bind_Ret by apply (compose_accepted os accepts).
    change (0 =? -1)%Z with false. cbv iota.
    erewrite bind_Ret by exact E1.
    erewrite bind_Ret by exact E2.
    erewrite bind_Ret by apply (compose_accepted os accepts).
    change (0 =? -1)%Z with false. cbv iota. unfold ret.
    split; [| split; [| split]].
    + change (push ?e ?x) with (pushes [e] x). rewrite !pushes_pushes.
      change (push begin w) with (pushes [begin] w).
      now rewrite pushes_pushes.
    + rewrite !forked_app, F2. change (forked (begin :: d1)) with (forked d1).
      rewrite F1. simpl. now rewrite app_nil_r.
    + rewrite !names_sent_app, P2.
      change (names_sent IMSG_RECONF_FILTER_PROC (begin :: d1))
        with (names_sent IMSG_RECONF_FILTER_PROC d1).
      rewrite P1. simpl. now rewrite app_nil_r.
    + rewrite !names_sent_app, N2.
      change (names_sent IMSG_RECONF_FILTER (begin :: d1))
        with (names_sent IMSG_RECONF_FILTER d1).
      rewrite N1. simpl. now rewrite app_nil_r.
Qed.

Lemma os_with_nothing_fails (pid : Z) (parsed : option smtpfd_conf) :
  (0 < pid)%Z -> nothing_fails (os_with pid parsed).
Proof.
  intros H. repeat split.
  - intros tr. now exists 7%Z, 8%Z.
  - intros tr. exact H.
Qed.

Lemma virus_all_acyclic : acyclic conf_virus_all.
Proof.
  intros f [<- | [<- | []]].
  - exists 0. now apply nesting_leaf.
  - exists 1. apply nesting_chain; [reflexivity |].
    exact (nesting_member conf_virus_all "virus" virus [] 0 0 eq_refl
             (nesting_leaf conf_virus_all virus eq_refl)
             (nesting_none conf_virus_all)).
Qed.

Lemma one_spawn_per_leaf_one_declaration_per_entry_witness :
  exists depth delta,
    priv_send_config (os_with 200 None) depth conf_virus_all w_start
    = Ret 0%Z (pushes delta w_start)
    /\ forked delta = [virus]
    /\ names_sent IMSG_RECONF_FILTER_PROC delta = ["virus"]
    /\ names_sent IMSG_RECONF_FILTER delta = ["virus"; "all"].
Proof.
  exact (proj2 (one_spawn_per_leaf_one_declaration_per_entry
                  (os_with 200 None) conf_virus_all w_start
                  (os_with_nothing_fails 200 None eq_refl))
               virus_all_acyclic).
Defined.

(** C3 fails as it is written, for every configuration: with the two
    chains [ping] and [pong] that refer to each other, followed by the
    leaf [virus], and nothing failing in the environment, no run of
    [priv_send_config] returns, and whatever depth the resolution is
    allowed, the only entry declared is [ping]; the configuration has
    three entries. *)
Lemma cycle_is_declared_only_in_part :
  ~ (exists depth,
        returns (priv_send_config (os_with 200 None) depth conf_cycle w_start))
  /\ (forall depth,
        names_sent IMSG_RECONF_FILTER
          (trace (world_of (priv_send_config (os_with 200 None) depth
                                             conf_cycle w_start)))
        = ["ping"])
  /\ map name (filters conf_cycle) = ["ping"; "pong"; "virus"].
Proof.
  assert (E : forall depth, exists w',
             priv_send_config (os_with 200 None) depth conf_cycle w_start
             = Deeper w'
             /\ names_sent IMSG_RECONF_FILTER (trace w') = ["ping"]).
  { intros depth. unfold priv_send_config.
    erewrite bind_Ret by reflexivity.
    change (0 =? -1)%Z with false. cbv iota.
    erewrite bind_Ret by (vm_compute; reflexivity).
    cbn [filters conf_cycle foreach].
    unfold bind at 1. unfold bind at 1.
    erewrite bind_Ret by reflexivity.
    rewrite (proj1 (cycle_is_deeper (os_with 200 None) depth _)).
    eexists. split; [reflexivity | vm_compute; reflexivity]. }
  split; [| split; [| reflexivity]].
  - intros (depth & a & w' & R). destruct (E depth) as (w1 & D & _).
    rewrite D in R. discriminate.
  - intros depth. destruct (E depth) as (w1 & -> & N). exact N.
Qed.

(** C1, as the code has it.  For the configuration of the leaf [virus]
    (argv ["clamfilter"]) followed by the chain [all] over ["virus"], and
    while nothing fails in the environment, [priv_send_config] returns 0
    having sent to the engine, in this order: the begin marker, the filter
    process of [virus], the declaration of [virus] followed by the member
    message that names [virus] itself, the declaration of [all] followed by
    its member [virus], the end marker.  The resolution step of a leaf
    sends one member message, which carries the leaf's own name. *)
Theorem virus_all_is_distributed (os : os_model) (w : world) :
  nothing_fails os ->
  exists depth delta,
    priv_send_config os depth conf_virus_all w = Ret 0%Z (pushes delta w)
    /\ map kind_of (engine_msgs delta)
       = [ (IMSG_RECONF_CONF, no_data);
           (IMSG_RECONF_FILTER_PROC, str_data "virus");
           (IMSG_RECONF_FILTER, str_data "virus");
           (IMSG_RECONF_FILTER_NODE, str_data "virus");
           (IMSG_RECONF_FILTER, str_data "all");
           (IMSG_RECONF_FILTER_NODE, str_data "virus");
           (IMSG_RECONF_END, no_data) ].
Proof.
  intros fine. pose proof (proj1 fine) as accepts.
  set (begin := E_compose p_engine (mk_imsg IMSG_RECONF_CONF 0 0 (-1) no_data)).
  set (done := E_compose p_engine (mk_imsg IMSG_RECONF_END 0 0 (-1) no_data)).
  set (decl := fun n => E_compose p_engine
                          (mk_imsg IMSG_RECONF_FILTER 0 0 (-1) (str_data n))).
  destruct (spawn_loop os fine (filters conf_virus_all) (push begin w))
    as (d1 & E1 & _ & K1 & _).
  set (w2 := pushes d1 (push begin w)) in *.
  set (d2 := [decl "virus"; node_event "virus"; decl "all"; node_event "virus"]).
  assert (E2 : foreach (filters conf_virus_all)
                 (fun f =>
                    proc_compose os p_engine
                      (mk_imsg IMSG_RECONF_FILTER 0 0 (-1) (str_data (name f))) ;;
                    priv_send_filter_conf os 2 conf_virus_all f) w2
               = Ret tt (pushes d2 w2)).
  { cbn [filters conf_virus_all foreach].
    erewrite bind_Ret;
      [| erewrite bind_Ret by apply (compose_accepted os accepts);
         apply (resolver_leaf os conf_virus_all accepts); reflexivity].
    erewrite bind_Ret;
      [| erewrite bind_Ret by apply (compose_accepted os accepts);
         rewrite (resolver_chain os conf_virus_all) by reflexivity;
         cbn [argv all foreach];
         erewrite bind_Ret;
           [| rewrite reference_step;
              change (entry_of conf_virus_all "virus") with (Some virus);
              cbv beta iota;
              apply (resolver_leaf os conf_virus_all accepts); reflexivity];
         reflexivity].
    unfold ret. rewrite !push_as_pushes, !pushes_pushes. reflexivity. }
  exists 2, ((begin :: d1) ++ d2 ++ [done]).
  unfold priv_send_config.
  erewrite bind_Ret by apply (compose_accepted os accepts).
  change (0 =? -1)%Z with false. cbv iota.
  erewrite bind_Ret by exact E1.
  erewrite bind_Ret by exact E2.
  erewrite bind_Ret by apply (compose_accepted os accepts).
  change (0 =? -1)%Z with false. cbv iota. unfold ret. split.
  - unfold w2. change (push ?e ?x) with (pushes [e] x). rewrite !pushes_pushes.
    change (push begin w) with (pushes [begin] w).
    now rewrite pushes_pushes.
  - rewrite !engine_msgs_app, !map_app.
    change (engine_msgs (begin :: d1)) with (mk_imsg IMSG_RECONF_CONF 0 0 (-1) no_data :: engine_msgs d1).
    cbn [map]. rewrite K1. reflexivity.
Qed.

Lemma virus_all_is_distributed_witness :
  exists depth delta,
    priv_send_config (os_with 200 None) depth conf_virus_all w_start
    = Ret 0%Z (pushes delta w_start)
    /\ map kind_of (engine_msgs delta)
       = [ (IMSG_RECONF_CONF, no_data);
           (IMSG_RECONF_FILTER_PROC, str_data "virus");
           (IMSG_RECONF_FILTER, str_data "virus");
           (IMSG_RECONF_FILTER_NODE, str_data "virus");
           (IMSG_RECONF_FILTER, str_data "all");
           (IMSG_RECONF_FILTER_NODE, str_data "virus");
           (IMSG_RECONF_END, no_data) ].
Proof.
  exact (virus_all_is_distributed (os_with 200 None) w_start
           (os_with_nothing_fails 200 None eq_refl)).
Defined.

(** C1 fails as it is written: no run of [priv_send_config] on that
    configuration sends the sequence begin, spawn(virus), declare(virus),
    declare(all), member(virus), end; the leaf's own member message is
    sent between the two declarations. *)
Lemma virus_all_claimed_sequence_is_not_sent :
  ~ (exists depth w',
        priv_send_config (os_with 200 None) depth conf_virus_all w_start
        = Ret 0%Z w'
        /\ map kind_of (engine_msgs (trace w'))
           = [ (IMSG_RECONF_CONF, no_data);
               (IMSG_RECONF_FILTER_PROC, str_data "virus");
               (IMSG_RECONF_FILTER, str_data "virus");
               (IMSG_RECONF_FILTER, str_data "all");
               (IMSG_RECONF_FILTER_NODE, str_data "virus");
               (IMSG_RECONF_END, no_data) ]).
Proof.
  intros (depth & w' & E & K).
  destruct depth as [| [| k]].
  - vm_compute in E. discriminate.
  - vm_compute in E. discriminate.
  - vm_compute in E. inversion E; subst w'. vm_compute in K. discriminate.
Qed.

(* ================================================================== *)
(** ** The filter process *)

(** C6, what the code does.  In the child of [priv_send_filter_proc], once
    the channel is bound to descriptor 3 and the descriptors from 4 upward
    are closed, the executable [argv[0]] of the leaf is executed with the
    vector that starts at [argv + 1]: the new process receives the
    configured arguments without the executable in front of them, not the
    configured vector [argv]. *)
Theorem filter_child_argument_vector
        (os : os_model) (f : filter_conf) (w : world)
        (path : string) (rest : list string) :
  in_child os ->
  argv f = path :: rest ->
  exists sp0 sp1,
    priv_send_filter_proc os f w
    = Halt (Execed path rest)
           (pushes [E_socketpair sp0 sp1; E_dup2 sp0 3; E_closefrom 4] w).
Proof.
  intros (Hs & Hf & Hd & Hc & Hx) Ha.
  destruct (Hs (trace w)) as (a & b & Es). exists a, b.
  unfold priv_send_filter_proc, bind, socketpair. rewrite Es.
  unfold fork. rewrite !Hf. cbn [Z.ltb Z.compare Z.eqb].
  unfold dup2.
  destruct (dup2_rv os (trace (push (E_socketpair a b) w)) =? -1)%Z eqn:Ed;
    [apply Z.eqb_eq in Ed; now apply Hd in Ed |].
  rewrite Ed. unfold closefrom.
  destruct (closefrom_rv os
              (trace (push (E_dup2 a 3) (push (E_socketpair a b) w))) =? -1)%Z
    eqn:Ec; [apply Z.eqb_eq in Ec; now apply Hc in Ec |].
  rewrite Ec. unfold execvp. rewrite Ha. cbn [nth_error skipn].
  rewrite Hx. now rewrite !push_as_pushes, !pushes_pushes.
Qed.

Lemma filter_child_argument_vector_witness :
  exists sp0 sp1,
    priv_send_filter_proc (os_with 0 None) scan w_start
    = Halt (Execed "clamfilter" ["--stream"])
           (pushes [E_socketpair sp0 sp1; E_dup2 sp0 3; E_closefrom 4] w_start).
Proof.
  apply (filter_child_argument_vector (os_with 0 None) scan w_start
           "clamfilter" ["--stream"]); [| reflexivity].
  repeat split; try discriminate. intros tr. now exists 7%Z, 8%Z.
Defined.

(* ================================================================== *)
(** ** Reload *)

Lemma only_adds_socketpair (os : os_model) :
  only_adds (fun _ => True) (socketpair os).
Proof.
  intros w. unfold socketpair.
  destruct (socketpair_rv os (trace w)) as [[a b] |].
  - exists [E_socketpair a b]. split; [reflexivity | now constructor].
  - exists []. simpl. now rewrite pushes_nil.
Qed.

Lemma only_adds_fork (os : os_model) (f : filter_conf) :
  only_adds (fun _ => True) (fork os f).
Proof.
  intros w. unfold fork. destruct (0 <? fork_rv os (trace w))%Z.
  - eexists [_]. split; [reflexivity | now constructor].
  - exists []. simpl. now rewrite pushes_nil.
Qed.

Lemma only_adds_dup2 (os : os_model) (a b : Z) :
  only_adds (fun _ => True) (dup2 os a b).
Proof.
  intros w. unfold dup2. destruct (dup2_rv os (trace w) =? -1)%Z.
  - exists []. simpl. now rewrite pushes_nil.
  - eexists [_]. split; [reflexivity | now constructor].
Qed.

Lemma only_adds_closefrom (os : os_model) (a : Z) :
  only_adds (fun _ => True) (closefrom os a).
Proof.
  intros w. unfold closefrom. destruct (closefrom_rv os (trace w) =? -1)%Z.
  - exists []. simpl. now rewrite pushes_nil.
  - eexists [_]. split; [reflexivity | now constructor].
Qed.

Lemma only_adds_execvp (os : os_model) (file : option string)
      (args : list string) :
  only_adds (fun _ => True) (execvp os file args).
Proof.
  intros w. unfold execvp. exists [].
  destruct file; [destruct (execvp_succeeds os (trace w)) |];
    simpl; now rewrite pushes_nil.
Qed.

Lemma spawn_only_adds (os : os_model) (f : filter_conf) :
  only_adds (fun _ => True) (priv_send_filter_proc os f).
Proof.
  unfold priv_send_filter_proc.
  apply only_adds_bind; [apply only_adds_socketpair |].
  intros [[sp0 sp1] |]; [| now apply only_adds_fatal].
  apply only_adds_bind; [apply only_adds_fork |]. intros pid.
  destruct (pid =? -1)%Z; [now apply only_adds_fatal |].
  destruct (pid =? 0)%Z.
  - apply only_adds_bind; [apply only_adds_dup2 |]. intros r.
    destruct (r =? -1)%Z; [now apply only_adds_fatal |].
    apply only_adds_bind; [apply only_adds_closefrom |]. intros r'.
    destruct (r' =? -1)%Z; [now apply only_adds_fatal |].
    apply only_adds_bind; [apply only_adds_execvp |]. intros _.
    now apply only_adds_fatal.
  - apply only_adds_bind; [now apply only_adds_emit |]. intros _.
    apply only_adds_bind; [now apply only_adds_emit |]. intros _.
    apply only_adds_bind; [now apply only_adds_compose |]. intros _.
    apply only_adds_ret.
Qed.

Lemma send_config_only_adds (os : os_model) (depth : nat) (conf : smtpfd_conf) :
  only_adds (fun _ => True) (priv_send_config os depth conf).
Proof.
  unfold priv_send_config.
  apply only_adds_bind; [now apply only_adds_compose |]. intros r.
  destruct (r =? -1)%Z; [apply only_adds_ret |].
  apply only_adds_bind.
  { apply only_adds_foreach. intros f _.
    destruct (chain f); [apply only_adds_ret | apply spawn_only_adds]. }
  intros _. apply only_adds_bind.
  { apply only_adds_foreach. intros f _.
    apply only_adds_bind; [now apply only_adds_compose |]. intros _.
    apply (only_adds_weaken is_node); [trivial | apply resolver_only_adds]. }
  intros _. apply only_adds_bind; [now apply only_adds_compose |]. intros r'.
  destruct (r' =? -1)%Z; apply only_adds_ret.
Qed.

(** [priv_send_config] returns 0 or -1. *)
Lemma send_config_result (os : os_model) (depth : nat) (conf : smtpfd_conf)
      (w w1 : world) (r : Z) :
  priv_send_config os depth conf w = Ret r w1 -> r = 0%Z \/ r = (-1)%Z.
Proof.
  unfold priv_send_config, bind.
  destruct (proc_compose os p_engine _ w) as [r0 w0 | |]; try discriminate.
  destruct (r0 =? -1)%Z.
  - unfold ret. intros E. inversion E. now right.
  - destruct (foreach (filters conf) _ w0) as [[] w2 | |]; try discriminate.
    destruct (foreach (filters conf) _ w2) as [[] w3 | |]; try discriminate.
    destruct (proc_compose os p_engine _ w3) as [r1 w4 | |]; try discriminate.
    destruct (r1 =? -1)%Z; unfold ret; intros E; inversion E; auto.
Qed.

(** C4.  [priv_reload] when [parse_config] fails returns -1 and leaves the
    globals and the trace as they were.  When the parse gives [xconf] and
    [priv_send_config xconf] returns, the active configuration was not
    touched by the distribution, and [priv_reload] returns -1 with [env]
    unchanged if the distribution returned -1, and otherwise returns 0
    after clearing the previous configuration and making [xconf] the
    active one.  When the distribution does not return, neither does
    [priv_reload], and [env] is unchanged. *)
Theorem reload_installs_after_distribution
        (os : os_model) (depth : nat) (w : world) :
  (parse_config os (trace w) (conffile w) = None ->
   priv_reload os depth w = Ret (-1)%Z w)
  /\ (forall xconf,
        parse_config os (trace w) (conffile w) = Some xconf ->
        env (world_of (priv_send_config os depth xconf w)) = env w
        /\ (forall r w1,
              priv_send_config os depth xconf w = Ret r w1 ->
              (r = (-1)%Z ->
               priv_reload os depth w = Ret (-1)%Z w1 /\ env w1 = env w)
              /\ (r <> (-1)%Z ->
                  r = 0%Z
                  /\ priv_reload os depth w
                     = Ret 0%Z (set_env xconf
                                        (push (E_config_clear (env w)) w1))))
        /\ (forall hh w1,
              priv_send_config os depth xconf w = Halt hh w1 ->
              priv_reload os depth w = Halt hh w1)
        /\ (forall w1,
              priv_send_config os depth xconf w = Deeper w1 ->
              priv_reload os depth w = Deeper w1)).
Proof.
  split.
  - intros Hp. unfold priv_reload, bind, get_conffile, call_parse_config.
    now rewrite Hp.
  - intros xconf Hp.
    pose proof (only_adds_env _ (priv_send_config os depth xconf) w
                  (send_config_only_adds os depth xconf)) as He.
    assert (Hr : priv_reload os depth w
                 = (r <- priv_send_config os depth xconf ;;
                    if (r =? -1)%Z then ret (-1)%Z else
                    old <- get_env ;;
                    config_clear old ;;
                    put_env xconf ;;
                    ret 0%Z) w).
    { unfold priv_reload, get_conffile, call_parse_config.
      unfold bind at 1 2. now rewrite Hp. }
    split; [exact He |]. split; [| split].
    + intros r w1 E. rewrite E in He. simpl in He.
      rewrite Hr. rewrite (bind_Ret _ _ _ _ _ E). split.
      * intros ->. split; [reflexivity | exact He].
      * intros Hn. destruct (send_config_result _ _ _ _ _ _ E) as [-> | ->];
          [| contradiction].
        split; [reflexivity |].
        unfold bind, get_env, config_clear, emit, put_env, ret. simpl.
        now rewrite He.
    + intros hh w1 E. rewrite Hr. unfold bind. now rewrite E.
    + intros w1 E. rewrite Hr. unfold bind. now rewrite E.
Qed.

Lemma reload_installs_after_distribution_witness :
  priv_reload (os_with 200 None) 2 (w_running conf_cycle)
  = Ret (-1)%Z (w_running conf_cycle)
  /\ (exists w1,
         priv_reload (os_with 200 (Some conf_virus_all)) 2 (w_running conf_cycle)
         = Ret 0%Z (set_env conf_virus_all
                            (push (E_config_clear conf_cycle) w1)))
  /\ (exists w1,
         priv_reload (os_deaf (Some conf_virus_all)) 2 (w_running conf_cycle)
         = Ret (-1)%Z w1
         /\ env w1 = conf_cycle).
Proof.
  split; [| split].
  - apply (proj1 (reload_installs_after_distribution
                    (os_with 200 None) 2 (w_running conf_cycle))).
    reflexivity.
  - destruct (proj2 (reload_installs_after_distribution
                       (os_with 200 (Some conf_virus_all)) 2
                       (w_running conf_cycle))
                    conf_virus_all eq_refl) as (_ & H & _).
    set (w1 := world_of (priv_send_config (os_with 200 (Some conf_virus_all)) 2
                           conf_virus_all (w_running conf_cycle))).
    destruct (H 0%Z w1 eq_refl) as [_ H0].
    destruct (H0 ltac:(discriminate)) as [_ R].
    exists w1. exact R.
  - destruct (proj2 (reload_installs_after_distribution
                       (os_deaf (Some conf_virus_all)) 2
                       (w_running conf_cycle))
                    conf_virus_all eq_refl) as (_ & H & _).
    exists (w_running conf_cycle).
    destruct (H (-1)%Z (w_running conf_cycle) eq_refl) as [H1 _].
    exact (H1 eq_refl).
Defined.

(* ================================================================== *)
(** ** The event loop and shutdown *)

Lemma event_dispatch_app (os : os_model) (depth : nat)
      (before rest : list loop_event) :
  forall w w1,
    event_dispatch os depth before w = Ret tt w1 ->
    loopexit w1 = false ->
    event_dispatch os depth (before ++ rest) w = event_dispatch os depth rest w1.
Proof.
  induction before as [| e before IH]; intros w w1 E L.
  - simpl in E. inversion E. reflexivity.
  - cbn [app event_dispatch] in *. unfold bind in *.
    destruct (callback os depth e w) as [[] w2 | hh w2 | w2]; try discriminate.
    destruct (loopexit w2) eqn:L2.
    + inversion E; subst. congruence.
    + now apply IH.
Qed.

(** The wait loop of [priv_shutdown] ends: it returns, or [fatal] exits
    with status 1; either way only the trace has grown. *)
Lemma shutdown_wait_ends (os : os_model) (engine_pid : Z) (ws : list wait_rv) :
  forall w, exists delta w',
    trace w' = trace w ++ delta /\ env w' = env w /\ csock w' = csock w
    /\ (shutdown_wait engine_pid ws w = Ret tt w'
        \/ shutdown_wait engine_pid ws w = Halt (Exited 1) w').
Proof.
  induction ws as [| r ws IH]; intros w.
  - exists [], (set_waits [] w). simpl. rewrite app_nil_r. auto.
  - destruct r as [pid st | | [| |]]; cbn [shutdown_wait].
    + unfold bind, emit.
      assert (S : exists d1 w1,
                 trace w1 = trace w ++ E_reaped pid st :: d1
                 /\ env w1 = env w /\ csock w1 = csock w
                 /\ match st with
                    | WSIGNALED sig =>
                        log_warnx "%s terminated; signal %d"
                          [if (pid =? engine_pid)%Z then "engine" else "frontend"]
                          [sig]
                    | _ => ret tt
                    end (push (E_reaped pid st) w) = Ret tt w1).
      { destruct st; eexists; eexists;
          (split; [| split; [| split; [| reflexivity]]]);
          simpl; rewrite <- ?app_assoc; reflexivity. }
      destruct S as (d1 & w1 & T1 & V1 & C1 & E1). rewrite E1.
      destruct (IH w1) as (d2 & w2 & T2 & V2 & C2 & R).
      exists (E_reaped pid st :: d1 ++ d2), w2.
      rewrite T2, T1, V2, V1, C2, C1, <- app_assoc. simpl. auto.
    + apply IH.
    + apply IH.
    + exists [], (set_waits ws w). simpl. rewrite app_nil_r. auto.
    + eexists [_], _. split; [| split; [| split; [| right; reflexivity]]];
        reflexivity.
Qed.

(** [priv_shutdown] closes the two handles, clears the active
    configuration, waits, and exits. *)
Lemma shutdown_exits (os : os_model) (A : Type) (w : world) :
  exists status w' delta,
    @priv_shutdown os A w = Halt (Exited status) w'
    /\ (status = 0 \/ status = 1)%Z
    /\ trace w' = trace w
                  ++ [E_proc_free p_frontend; E_proc_free p_engine;
                      E_config_clear (env w);
                      E_log LOG_debug "waiting for children to terminate" [] []]
                  ++ delta.
Proof.
  unfold priv_shutdown, bind, emit, get_env, config_clear, log_debug, emit,
    get_waits.
  cbn [env push waits].
  set (w0 := push _ (push _ (push _ (push _ w)))).
  destruct (shutdown_wait_ends os (proc_getpid os p_frontend) (waits w) w0)
    as (d & w1 & T & V & C & [E | E]); rewrite E.
  - unfold get_csock, log_info, emit, exit, stop.
    eexists 0%Z, _, (d ++ [_; _]). split; [reflexivity |]. split; [now left |].
    cbn [trace push]. rewrite T. unfold w0. cbn [trace push].
    now rewrite <- !app_assoc.
  - exists 1%Z, w1, d. split; [reflexivity |]. split; [now right |].
    rewrite T. unfold w0. cbn [trace push]. now rewrite <- !app_assoc.
Qed.

(** C7.  Whatever was dispatched before, as long as the loop is still
    running: the handler of either retained handle, called with the NULL
    message, asks the event loop to exit and returns; [event_dispatch]
    then returns without running a further callback, and [main] goes on
    with [priv_shutdown], which closes both handles, clears the
    configuration, reaps, and exits the process. *)
Theorem channel_closure_leads_to_shutdown
        (os : os_model) (depth : nat) (p : imsgproc)
        (before after : list loop_event) (w w1 : world) :
  event_dispatch os depth before w = Ret tt w1 ->
  loopexit w1 = false ->
  callback os depth (closed p) w1
  = Ret tt (push E_loopexit (set_loopexit true w1))
  /\ supervise os depth (before ++ closed p :: after) w
     = priv_shutdown os (push E_loopexit (set_loopexit true w1))
  /\ exists status w2 delta,
      supervise os depth (before ++ closed p :: after) w
      = Halt (Exited status) w2
      /\ (status = 0 \/ status = 1)%Z
      /\ trace w2 = trace w1
                    ++ [E_loopexit;
                        E_proc_free p_frontend; E_proc_free p_engine;
                        E_config_clear (env w1);
                        E_log LOG_debug "waiting for children to terminate" [] []]
                    ++ delta.
Proof.
  intros E L.
  assert (C : callback os depth (closed p) w1
              = Ret tt (push E_loopexit (set_loopexit true w1)))
    by (destruct p; reflexivity).
  assert (S : supervise os depth (before ++ closed p :: after) w
              = priv_shutdown os (push E_loopexit (set_loopexit true w1))).
  { unfold supervise. erewrite bind_Ret; [reflexivity |].
    rewrite (event_dispatch_app os depth before _ w w1 E L).
    cbn [event_dispatch]. now rewrite (bind_Ret _ _ _ _ _ C). }
  split; [exact C |]. split; [exact S |].
  destruct (shutdown_exits os Z (push E_loopexit (set_loopexit true w1)))
    as (status & w2 & delta & H & Hs & T).
  exists status, w2, delta. rewrite S. split; [exact H |]. split; [exact Hs |].
  rewrite T. cbn [trace push set_loopexit env]. now rewrite <- app_assoc.
Qed.

Lemma channel_closure_leads_to_shutdown_witness :
  exists w1,
    supervise (os_with 200 (Some conf_virus_all)) 2
      ([ev_frontend (Some (mk_imsg IMSG_CTL_RELOAD 0 0 (-1) no_data));
        ev_signal SIGCHLD]
         ++ closed p_engine :: [ev_signal SIGHUP])
      (w_running conf_cycle)
    = priv_shutdown (os_with 200 (Some conf_virus_all))
        (push E_loopexit (set_loopexit true w1)).
Proof.
  set (os := os_with 200 (Some conf_virus_all)).
  set (before := [ev_frontend (Some (mk_imsg IMSG_CTL_RELOAD 0 0 (-1) no_data));
                  ev_signal SIGCHLD]).
  set (w1 := world_of (event_dispatch os 2 before (w_running conf_cycle))).
  exists w1.
  refine (proj1 (proj2 (channel_closure_leads_to_shutdown
                          os 2 p_engine before [ev_signal SIGHUP]
                          (w_running conf_cycle) w1 _ _)));
    vm_compute; reflexivity.
Defined.

(* ================================================================== *)
(** ** Start-up *)

Lemma flag_set_lor_same (o f : Z) : f <> 0%Z -> flag_set (Z.lor o f) f = true.
Proof.
  intros H. unfold flag_set. rewrite Z.land_lor_distr_l, Z.land_diag.
  apply negb_true_iff, Z.eqb_neq. intros E.
  apply Z.lor_eq_0_iff in E. now destruct E.
Qed.

Lemma flag_set_lor_keeps (o x f : Z) :
  flag_set o f = true -> flag_set (Z.lor o x) f = true.
Proof.
  unfold flag_set. rewrite Z.land_lor_distr_l, !negb_true_iff, !Z.eqb_neq.
  intros H E. apply Z.lor_eq_0_iff in E. now destruct E.
Qed.

Lemma flag_set_lor_other (o x f : Z) :
  Z.land x f = 0%Z -> flag_set (Z.lor o x) f = flag_set o f.
Proof.
  intros H. unfold flag_set. now rewrite Z.land_lor_distr_l, H, Z.lor_0_r.
Qed.

Lemma config_print_lines (c : smtpfd_conf) (w : world) :
  config_print c w = Ret tt (pushes (config_lines c) w).
Proof.
  unfold config_print, config_lines. destruct c as [l]. cbn [filters].
  revert w. induction l as [| f l IH]; intros w; cbn [foreach flat_map].
  - unfold ret. now rewrite pushes_nil.
  - assert (A : forall args w0,
               foreach args (fun a => emit (E_print stdout (" " ++ a))) w0
               = Ret tt (pushes (map (fun a => E_print stdout (" " ++ a)) args) w0)).
    { induction args as [| a args IHa]; intros w0; cbn [foreach map].
      - unfold ret. now rewrite pushes_nil.
      - unfold bind, emit. rewrite IHa, push_as_pushes. now rewrite pushes_pushes. }
    erewrite bind_Ret;
      [| unfold bind at 1, emit at 1; erewrite bind_Ret by apply A;
         unfold emit; reflexivity].
    rewrite IH, !push_as_pushes, !pushes_pushes.
    f_equal. f_equal. simpl. now rewrite <- !app_assoc.
Qed.

Section Options.

Variable os : os_model.
Variable h : smtpfd_h.
Variable progname : string.

(** One turn of the option loop: [usage] for an option that [getopt] does
    not know, otherwise the locals and globals of that option are set and
    at most a warning is logged. *)
Lemma main_option_outcome (l : main_locals) (ch : getopt_rv) (w : world) :
  (ch = opt_unknown
   /\ exists w', main_option os h progname l ch w = Halt (Exited 1) w'
                 /\ exists text, trace w' = trace w ++ [E_print stderr text])
  \/ (ch <> opt_unknown
      /\ exists l' w' pre,
        main_option os h progname l ch w = Ret l' w'
        /\ trace w' = trace w ++ pre
        /\ Forall (fun e => is_report e = true) pre
        /\ (ch <> opt_E -> engine_flag l' = engine_flag l)
        /\ (ch <> opt_F -> frontend_flag l' = frontend_flag l)
        /\ (ch <> opt_n -> ch <> opt_v -> cmd_opts w' = cmd_opts w)
        /\ (ch = opt_n -> cmd_opts w' = Z.lor (cmd_opts w) (OPT_NOACTION h))
        /\ (ch = opt_v ->
            cmd_opts w'
            = Z.lor (if flag_set (cmd_opts w) (OPT_VERBOSE h)
                     then Z.lor (cmd_opts w) (OPT_VERBOSE2 h)
                     else cmd_opts w)
                    (OPT_VERBOSE h))).
Proof.
  destruct ch; try (right; split; [discriminate |]).
  - unfold main_option, bind, log_warnx, emit, ret.
    destruct (cmdline_symset os optarg <? 0)%Z.
    + eexists l, _, [_]. repeat split; try reflexivity; try congruence.
      now repeat constructor.
    + exists l, w, []. rewrite app_nil_r.
      repeat split; try reflexivity; try congruence. constructor.
  - eexists _, w, []. rewrite app_nil_r.
    repeat split; try reflexivity; try congruence. constructor.
  - eexists _, w, []. rewrite app_nil_r.
    repeat split; try reflexivity; try congruence. constructor.
  - eexists _, w, []. rewrite app_nil_r.
    repeat split; try reflexivity; try congruence. constructor.
  - eexists l, _, []. cbn [main_option]. unfold bind, put_conffile, ret.
    repeat split; try reflexivity; try congruence.
    + cbn [trace set_conffile]. now rewrite app_nil_r.
    + constructor.
  - eexists l, _, []. cbn [main_option].
    unfold bind, get_cmd_opts, put_cmd_opts, ret.
    repeat split; try reflexivity; try congruence.
    + cbn [trace set_cmd_opts]. now rewrite app_nil_r.
    + constructor.
  - eexists l, _, []. cbn [main_option]. unfold bind, put_csock, ret.
    repeat split; try reflexivity; try congruence.
    + cbn [trace set_csock]. now rewrite app_nil_r.
    + constructor.
  - cbn [main_option]. unfold bind, get_cmd_opts, put_cmd_opts, ret.
    destruct (flag_set (cmd_opts w) (OPT_VERBOSE h));
      (eexists l, _, []; cbn [cmd_opts set_cmd_opts];
       repeat split; try reflexivity; try congruence;
       [cbn [trace set_cmd_opts]; now rewrite app_nil_r | constructor]).
  - left. split; [reflexivity |]. eexists. split; [reflexivity |].
    eexists. reflexivity.
Qed.

(** The option loop starts no process, however it ends. *)
Lemma getopt_loop_quiet (opts : list getopt_rv) :
  forall l w, exists d,
    trace (world_of (getopt_loop os h progname l opts w)) = trace w ++ d
    /\ Forall (fun e => starts_process e = false) d.
Proof.
  induction opts as [| ch opts IH]; intros l w; cbn [getopt_loop].
  - exists []. simpl. now rewrite app_nil_r.
  - unfold bind.
    destruct (main_option_outcome l ch w)
      as [(_ & w' & E & text & T) | (_ & l' & w' & pre & E & T & F & _)];
      rewrite E.
    + exists [E_print stderr text]. split; [exact T | now repeat constructor].
    + destruct (IH l' w') as (d & Td & Fd). exists (pre ++ d).
      rewrite Td, T, app_assoc. split; [reflexivity |].
      apply Forall_app. split; [| exact Fd].
      eapply Forall_impl; [| exact F]. intros [] He; simpl in *; congruence.
Qed.

Hypothesis bits : flags_distinct h.

(** The option loop on options that [getopt] knows. *)
Lemma getopt_loop_flags (opts : list getopt_rv) :
  ~ In opt_unknown opts ->
  forall l w, exists l' w' pre,
    getopt_loop os h progname l opts w = Ret l' w'
    /\ trace w' = trace w ++ pre
    /\ Forall (fun e => is_report e = true) pre
    /\ (~ In opt_E opts -> engine_flag l' = engine_flag l)
    /\ (~ In opt_F opts -> frontend_flag l' = frontend_flag l)
    /\ (flag_set (cmd_opts w) (OPT_NOACTION h) = true \/ In opt_n opts ->
        flag_set (cmd_opts w') (OPT_NOACTION h) = true)
    /\ flag_set (cmd_opts w') (OPT_VERBOSE h)
       = flag_set (cmd_opts w) (OPT_VERBOSE h) || existsb is_opt_v opts.
Proof.
  destruct bits as (Hn & Hv & Hnv).
  induction opts as [| ch opts IH]; intros Hu l w; cbn [getopt_loop].
  - exists l, w, []. rewrite app_nil_r. simpl. rewrite orb_false_r.
    repeat split; try reflexivity; [constructor | now intros [H | []]].
  - destruct (main_option_outcome l ch w)
      as [(-> & _) | (_ & l1 & w1 & pre & E & T & F & He & Hf & Ho & Hon & Hov)];
      [exfalso; apply Hu; now left |].
    destruct (IH (fun H => Hu (or_intror H)) l1 w1)
      as (l' & w' & pre' & E' & T' & F' & He' & Hf' & Hn' & Hv').
    exists l', w', (pre ++ pre').
    rewrite (bind_Ret _ _ _ _ _ E), E', T', T, app_assoc.
    split; [reflexivity |]. split; [reflexivity |].
    split; [now apply Forall_app |].
    split; [| split; [| split]].
    + intros H. transitivity (engine_flag l1).
      * apply He'. intros Hin. apply H. now right.
      * apply He. intros ->. apply H. now left.
    + intros H. transitivity (frontend_flag l1).
      * apply Hf'. intros Hin. apply H. now right.
      * apply Hf. intros ->. apply H. now left.
    + intros H. apply Hn'.
      assert (K : flag_set (cmd_opts w) (OPT_NOACTION h) = true ->
                  flag_set (cmd_opts w1) (OPT_NOACTION h) = true).
      { intros H0. destruct ch; try (rewrite Ho by discriminate; exact H0).
        - rewrite Hon by reflexivity. now apply flag_set_lor_same.
        - rewrite Hov by reflexivity. apply flag_set_lor_keeps.
          destruct (flag_set (cmd_opts w) (OPT_VERBOSE h));
            [now apply flag_set_lor_keeps | exact H0]. }
      destruct H as [H | [-> | H]]; [left; now apply K | left | now right].
      rewrite Hon by reflexivity. now apply flag_set_lor_same.
    + rewrite Hv'. cbn [existsb].
      destruct ch; cbn [is_opt_v orb];
        try (rewrite Ho by discriminate; reflexivity).
      * rewrite Hon by reflexivity. now rewrite flag_set_lor_other.
      * rewrite Hov by reflexivity. rewrite flag_set_lor_same by exact Hv.
        now rewrite orb_true_r.
Qed.

End Options.

(** C9, as the code has it.  Invoked with [-n] on a command line that is
    otherwise accepted (no option unknown to [getopt], no trailing
    argument, neither [-E] nor [-F]): when the configuration does not
    parse the process exits with status 1; when it parses the process exits
    with status 0 after writing "configuration OK" to stderr, or, when
    [-v] was given as well, the listing of the configuration to stdout
    instead.  Either way nothing but log lines precedes, and no process is
    started. *)
Theorem noaction_checks_and_exits
        (os : os_model) (h : smtpfd_h) (depth : nat) (progname : string)
        (argv0 : option string) (opts : list getopt_rv)
        (evs : list loop_event) (w : world) (x : option smtpfd_conf) :
  flags_distinct h ->
  (forall tr path, parse_config os tr path = x) ->
  cmd_opts w = 0%Z ->
  In opt_n opts ->
  ~ In opt_unknown opts -> ~ In opt_E opts -> ~ In opt_F opts ->
  exists pre out w',
    Forall (fun e => is_report e = true) pre
    /\ out = match x with
             | None => []
             | Some c =>
                 if existsb is_opt_v opts then config_lines c
                 else [E_print stderr ("configuration OK" ++ nl)]
             end
    /\ main os h depth progname argv0 opts [] evs w
       = Halt (Exited (match x with None => 1 | Some _ => 0 end)) w'
    /\ trace w' = trace w ++ pre ++ out
    /\ Forall (fun e => starts_process e = false) (pre ++ out).
Proof.
  intros bits Hparse Hopts Hn Hu HE HF.
  set (w0 := push (E_setverbose 1)
                  (set_csock (SMTPFD_SOCKET h) (set_conffile (CONF_FILE h) w))).
  destruct (getopt_loop_flags os h progname bits opts Hu (mk_locals 0 0 0) w0)
    as (l & w1 & pre & E & T & F & He & Hf & HN & HV).
  specialize (He HE). specialize (Hf HF). specialize (HN (or_intror Hn)).
  cbn [engine_flag frontend_flag] in He, Hf.
  assert (HV0 : flag_set (cmd_opts w1) (OPT_VERBOSE h) = existsb is_opt_v opts).
  { rewrite HV. unfold w0. cbn [cmd_opts push set_csock set_conffile].
    rewrite Hopts. reflexivity. }
  assert (Q : forall d, Forall (fun e => is_report e = true) d ->
                        Forall (fun e => starts_process e = false) d).
  { intros d Hd. eapply Forall_impl; [| exact Hd].
    intros [] He0; simpl in *; congruence. }
  unfold main, bind, put_conffile, put_csock, log_setverbose, emit.
  fold w0. rewrite E. rewrite He, Hf.
  cbn [List.length Z.of_nat Z.ltb Z.compare Z.eqb negb andb orb].
  unfold ret, get_cmd_opts, get_csock, get_conffile, call_parse_config.
  rewrite Hparse.
  destruct x as [c |].
  - unfold put_env. cbn [cmd_opts set_env].
    rewrite HN, HV0.
    destruct (existsb is_opt_v opts).
    + rewrite config_print_lines. unfold exit, stop.
      eexists (E_setverbose 1 :: pre), _, _.
      split; [constructor; [reflexivity | exact F] |].
      split; [reflexivity |]. split; [reflexivity |]. split.
      * cbn [trace pushes set_env]. rewrite T. unfold w0.
        cbn [trace push set_csock set_conffile]. now rewrite <- !app_assoc.
      * apply Forall_app. split.
        -- apply Q. constructor; [reflexivity | exact F].
        -- unfold config_lines. apply Forall_flat_map, Forall_forall.
           intros f _. constructor; [reflexivity |].
           apply Forall_app. split; [| now repeat constructor].
           apply Forall_map, Forall_forall. reflexivity.
    + unfold exit, stop.
      eexists (E_setverbose 1 :: pre), _, _.
      split; [constructor; [reflexivity | exact F] |].
      split; [reflexivity |]. split; [reflexivity |]. split.
      * cbn [trace push set_env]. rewrite T. unfold w0.
        cbn [trace push set_csock set_conffile]. now rewrite <- !app_assoc.
      * apply Forall_app. split; [| now repeat constructor].
        apply Q. constructor; [reflexivity | exact F].
  - unfold exit, stop.
    eexists (E_setverbose 1 :: pre), _, _.
    split; [constructor; [reflexivity | exact F] |].
    split; [reflexivity |]. split; [reflexivity |]. split.
    + rewrite T. unfold w0. cbn [trace push set_csock set_conffile].
      now rewrite <- !app_assoc, app_nil_r.
    + rewrite app_nil_r. apply Q. constructor; [reflexivity | exact F].
Qed.

Lemma noaction_checks_and_exits_witness :
  exists pre out w',
    Forall (fun e => is_report e = true) pre
    /\ out = [E_print stderr ("configuration OK" ++ nl)]
    /\ main (os_with 200 (Some conf_virus_all)) header 2 "smtpfd" (Some "smtpfd")
            [opt_f "/tmp/smtpfd.conf"; opt_n] [] [] w_start
       = Halt (Exited 0) w'
    /\ trace w' = trace w_start ++ pre ++ out
    /\ Forall (fun e => starts_process e = false) (pre ++ out).
Proof.
  apply (noaction_checks_and_exits
           (os_with 200 (Some conf_virus_all)) header 2 "smtpfd" (Some "smtpfd")
           [opt_f "/tmp/smtpfd.conf"; opt_n] [] w_start (Some conf_virus_all)).
  - repeat split; discriminate.
  - reflexivity.
  - reflexivity.
  - simpl. auto.
  - simpl. intros [H | [H | []]]; discriminate.
  - simpl. intros [H | [H | []]]; discriminate.
  - simpl. intros [H | [H | []]]; discriminate.
Defined.

(** C9 fails as it is written: with [-n -v] and a configuration that
    parses, the process exits with status 0 without ever writing
    "configuration OK". *)
Lemma noaction_verbose_does_not_print_ok :
  exists w',
    main (os_with 200 (Some conf_virus_all)) header 2 "smtpfd" (Some "smtpfd")
         [opt_n; opt_v] [] [] w_start
    = Halt (Exited 0) w'
    /\ ~ In (E_print stderr ("configuration OK" ++ nl)) (trace w').
Proof.
  eexists. split; [vm_compute; reflexivity |].
  simpl. intuition discriminate.
Qed.

Lemma quiet_has_no_exec (tr : list event) (r : proc_role) (a : list string) :
  Forall (fun e => starts_process e = false) tr ->
  ~ In (E_proc_exec r a) tr.
Proof.
  intros F Hin. rewrite Forall_forall in F. specialize (F _ Hin). discriminate.
Qed.

Lemma config_lines_quiet (c : smtpfd_conf) :
  Forall (fun e => starts_process e = false) (config_lines c).
Proof.
  unfold config_lines. apply Forall_flat_map, Forall_forall.
  intros f _. constructor; [reflexivity |].
  apply Forall_app. split; [| now repeat constructor].
  apply Forall_map, Forall_forall. reflexivity.
Qed.

(** C10, what the code does.  Take any run of [main] in which the frontend
    is started, that is, any run that goes on to the engine spawn.  Then no
    argument was left after the options ([argc] is 0), every store that
    built the frontend's vector was inside [rargv], and the run stops at
    the store that should end the engine's vector: its index [argc - 3] is
    -3, outside the seven slots 0..6 of the array. *)
Theorem engine_vector_terminator_is_out_of_bounds
        (os : os_model) (h : smtpfd_h) (depth : nat) (progname : string)
        (argv0 : option string) (opts : list getopt_rv) (rest : list string)
        (evs : list loop_event) (w : world) (args : list string) :
  Forall (fun e => starts_process e = false) (trace w) ->
  In (E_proc_exec PROC_FRONTEND args)
     (trace (world_of (main os h depth progname argv0 opts rest evs w))) ->
  rest = []
  /\ exists w',
      main os h depth progname argv0 opts rest evs w
      = Halt (OutOfBounds (-3)) w'.
Proof.
  intros Qw Hin.
  set (w0 := push (E_setverbose 1)
                  (set_csock (SMTPFD_SOCKET h) (set_conffile (CONF_FILE h) w))).
  destruct (getopt_loop_quiet os h progname opts (mk_locals 0 0 0) w0)
    as (d & T & Qd).
  assert (Q1 : Forall (fun e => starts_process e = false)
                      (trace (world_of (getopt_loop os h progname
                                          (mk_locals 0 0 0) opts w0)))).
  { rewrite T. apply Forall_app. split; [| exact Qd].
    unfold w0. cbn [trace push set_csock set_conffile].
    apply Forall_app. split; [exact Qw | now repeat constructor]. }
  clear T Qd d.
  revert Hin.
  unfold main, bind, put_conffile, put_csock, log_setverbose, emit. fold w0.
  destruct (getopt_loop os h progname (mk_locals 0 0 0) opts w0)
    as [l w1 | hh w1 | w1]; cbn [world_of] in Q1;
    try (intros Hin; exfalso; exact (quiet_has_no_exec _ _ _ Q1 Hin)).
  assert (P : forall e, starts_process e = false ->
                        ~ In (E_proc_exec PROC_FRONTEND args) (trace (push e w1))).
  { intros e He. apply quiet_has_no_exec. cbn [trace push].
    apply Forall_app. split; [exact Q1 | now repeat constructor]. }
  destruct rest as [| a rest].
  2:{ cbn [List.length Z.of_nat Z.ltb Z.compare orb]. unfold usage, bind, emit, exit, stop.
      intros Hin. exfalso. revert Hin. cbn [world_of]. now apply P. }
  cbn [List.length Z.of_nat Z.ltb Z.compare orb].
  unfold get_cmd_opts, get_csock.
  destruct (negb (engine_flag l =? 0)%Z) eqn:Fe;
    destruct (negb (frontend_flag l =? 0)%Z) eqn:Ff;
    cbn [andb]; unfold usage, engine, frontend, bind, emit, exit, stop, ret;
    try (intros Hin; exfalso; revert Hin; cbn [world_of];
         first [now apply P | exact (quiet_has_no_exec _ _ _ Q1)]).
  unfold get_conffile, call_parse_config.
  destruct (parse_config os (trace w1) (conffile w1)) as [c |];
    [| intros Hin; exfalso; exact (quiet_has_no_exec _ _ _ Q1 Hin)].
  unfold put_env, get_cmd_opts. cbn [cmd_opts set_env].
  destruct (flag_set (cmd_opts w1) (OPT_NOACTION h)).
  { destruct (flag_set (cmd_opts w1) (OPT_VERBOSE h)).
    - rewrite config_print_lines. cbn [world_of trace pushes set_env].
      intros Hin. exfalso. revert Hin. apply quiet_has_no_exec.
      apply Forall_app. split; [exact Q1 | apply config_lines_quiet].
    - cbn [world_of trace push set_env].
      intros Hin. exfalso. revert Hin. apply quiet_has_no_exec.
      apply Forall_app. split; [exact Q1 | now repeat constructor]. }
  destruct (negb (geteuid os =? 0)%Z).
  { unfold fatal, bind, emit, exit, stop. cbn [world_of trace push set_env].
    intros Hin. exfalso. revert Hin. apply quiet_has_no_exec.
    apply Forall_app. split; [exact Q1 | now repeat constructor]. }
  destruct (negb (getpwnam_found os)).
  { unfold fatal, bind, emit, exit, stop. cbn [world_of trace push set_env].
    intros Hin. exfalso. revert Hin. apply quiet_has_no_exec.
    apply Forall_app. split; [exact Q1 | now repeat constructor]. }
  intros _. split; [reflexivity |].
  unfold log_info, emit, store_next, store, bind, ret, get_csock, proc_exec, emit.
  destruct (debug l =? 0)%Z; destruct (flag_set (cmd_opts w1) (OPT_VERBOSE h));
    cbn; eexists; reflexivity.
Qed.

Lemma engine_vector_terminator_is_out_of_bounds_witness :
  @nil string = []
  /\ exists w',
      main (os_with 200 (Some conf_virus_all)) header 2 "smtpfd" (Some "smtpfd")
           [opt_d] [] [] w_start
      = Halt (OutOfBounds (-3)) w'.
Proof.
  apply (engine_vector_terminator_is_out_of_bounds
           (os_with 200 (Some conf_virus_all)) header 2 "smtpfd" (Some "smtpfd")
           [opt_d] [] [] w_start
           ["smtpfd"; "-F"; "-d"; "-s"; "/var/run/smtpfd.sock"]).
  - constructor.
  - vm_compute. tauto.
Defined.

(* ================================================================== *)
(** * Further properties of the resolver *)

Lemma foreach_ext {A : Type} (l : list A) (b1 b2 : A -> M unit) :
  (forall x w, In x l -> b1 x w = b2 x w) ->
  forall w, foreach l b1 w = foreach l b2 w.
Proof.
  induction l as [| x l IH]; intros H w; cbn [foreach].
  - reflexivity.
  - unfold bind. rewrite (H x w (or_introl eq_refl)).
    destruct (b2 x w) as [[] w1 | hh w1 | w1]; try reflexivity.
    apply IH. intros y w0 Hy. apply H. now right.
Qed.

Lemma returns_gives_nesting (os : os_model) (conf : smtpfd_conf) (depth : nat) :
  forall f w,
    returns (priv_send_filter_conf os depth conf f w) ->
    exists d, nesting conf f d.
Proof.
  induction depth as [| k IH]; intros f w R.
  - destruct R as (a & w' & E). discriminate.
  - destruct (chain f) eqn:Hc; [| exists 0; now apply nesting_leaf].
    cbn [priv_send_filter_conf] in R. rewrite Hc in R.
    assert (N : exists d, nesting_refs conf (argv f) d).
    { revert w R. induction (argv f) as [| n refs IHr]; intros w R.
      - exists 0. constructor.
      - cbn [foreach] in R. apply returns_bind in R.
        destruct R as ([] & w1 & E & R). rewrite reference_step in E.
        destruct (IHr w1 R) as (d2 & N2).
        destruct (entry_of conf n) as [e |] eqn:He.
        + destruct (IH e w) as (d1 & N1); [now exists tt, w1 |].
          exists (Nat.max (S d1) d2). now apply nesting_member with (e := e).
        + exists d2. now apply nesting_absent. }
    destruct N as (d & N). exists d. now apply nesting_chain.
Qed.

(** X1.  The resolution of an entry returns, for a depth that is large
    enough, exactly when the entry has a chain nesting depth, that is when
    no chain under it reaches itself; this holds in every environment. *)
Theorem resolution_returns_iff_nested
        (os : os_model) (conf : smtpfd_conf) (f : filter_conf) (w : world) :
  (exists depth, returns (priv_send_filter_conf os depth conf f w))
  <-> (exists d, nesting conf f d).
Proof.
  split.
  - intros (depth & R). exact (returns_gives_nesting os conf depth f w R).
  - intros (d & N). exists (S d).
    apply (resolver_returns_iff os conf f d N). lia.
Qed.

(** X3.  A chain that names itself among its references, and is the entry
    its own name refers to, is never resolved: whatever the depth, the
    call does not return. *)
Theorem self_reference_never_resolves
        (os : os_model) (conf : smtpfd_conf) (f : filter_conf)
        (depth : nat) (w : world) :
  chain f = true ->
  In (name f) (argv f) ->
  entry_of conf (name f) = Some f ->
  ~ returns (priv_send_filter_conf os depth conf f w).
Proof.
  intros Hc Hin He. revert w. induction depth as [| k IH]; intros w R.
  - destruct R as (a & w' & E). discriminate.
  - cbn [priv_send_filter_conf] in R. rewrite Hc in R.
    destruct (in_split _ _ Hin) as (l1 & l2 & Ha). rewrite Ha in R.
    rewrite foreach_app in R. apply returns_bind in R.
    destruct R as ([] & w1 & _ & R). cbn [foreach] in R.
    apply returns_bind in R. destruct R as ([] & w2 & E & _).
    rewrite reference_step, He in E.
    apply (IH w1). now exists tt, w2.
Qed.

Lemma self_reference_never_resolves_witness :
  ~ returns (priv_send_filter_conf (os_with 200 None) 5 conf_selfish
                                   selfish w_start).
Proof.
  apply (self_reference_never_resolves
           (os_with 200 None) conf_selfish selfish 5 w_start).
  - reflexivity.
  - simpl. auto.
  - reflexivity.
Defined.

Lemma shadowed_find (l1 l2 : list filter_conf) (e : filter_conf) (n : string) :
  In (name e) (map name l1) ->
  find (fun x => String.eqb n (name x)) (l1 ++ e :: l2)
  = find (fun x => String.eqb n (name x)) (l1 ++ l2).
Proof.
  induction l1 as [| x l1 IH]; intros H; [destruct H |].
  cbn [app find]. destruct (String.eqb n (name x)) eqn:E; [reflexivity |].
  destruct H as [H | H].
  - (* [x] carries the name of [e] and is not [n]: [e] is not [n] either *)
    clear IH. induction l1 as [| y l1 IH]; cbn [app find].
    + rewrite <- H, E. reflexivity.
    + destruct (String.eqb n (name y)); [reflexivity | exact IH].
  - now apply IH.
Qed.

(** X4.  A name is looked up from the head of the queue and the first
    entry that carries it wins: an entry whose name is already the name of
    an earlier entry is never used as a member of a chain, so resolving
    with it in the configuration or without it is the same run. *)
Theorem shadowed_entry_is_never_a_member
        (os : os_model) (l1 l2 : list filter_conf) (e : filter_conf)
        (depth : nat) (f : filter_conf) (w : world) :
  In (name e) (map name l1) ->
  priv_send_filter_conf os depth (mk_conf (l1 ++ e :: l2)) f w
  = priv_send_filter_conf os depth (mk_conf (l1 ++ l2)) f w.
Proof.
  intros H. revert f w. induction depth as [| k IH]; intros f w.
  - reflexivity.
  - cbn [priv_send_filter_conf filters]. destruct (chain f); [| reflexivity].
    apply foreach_ext. intros n w0 _.
    rewrite !send_first_named_find, (shadowed_find l1 l2 e n H).
    destruct (find _ (l1 ++ l2)); [apply IH | reflexivity].
Qed.

Lemma shadowed_entry_is_never_a_member_witness :
  priv_send_filter_conf (os_with 200 None) 2
    (mk_conf ([virus] ++ virus_again :: [all])) all w_start
  = priv_send_filter_conf (os_with 200 None) 2
      (mk_conf ([virus] ++ [all])) all w_start.
Proof.
  apply (shadowed_entry_is_never_a_member
           (os_with 200 None) [virus] [all] virus_again 2 all w_start).
  simpl. auto.
Defined.

(* ================================================================== *)
(** * Further properties of the distribution *)

Section Distribution_by_type.

Variable os : os_model.
Variable ok : imsg_type -> bool.
Hypothesis by_type : accepts_by_type os ok.

Lemma compose_by_type (p : imsgproc) (m : imsg) (w : world) :
  proc_compose os p m w
  = if ok (hdr_type m) then Ret 0%Z (push (E_compose p m) w) else Ret (-1)%Z w.
Proof. unfold proc_compose. now rewrite (proj1 by_type). Qed.

(** The parent's side of the spawner, whether or not the engine takes the
    message. *)
Lemma spawn_forks_once (f : filter_conf) (w : world) :
  exists delta,
    priv_send_filter_proc os f w = Ret tt (pushes delta w)
    /\ forked delta = [f].
Proof.
  pose proof by_type as (_ & Hs & Hf).
  unfold priv_send_filter_proc, bind, socketpair.
  destruct (Hs (trace w)) as (a & b & Es). rewrite Es.
  unfold fork. set (w1 := push (E_socketpair a b) w).
  pose proof (Hf (trace w1)) as Hpid.
  set (pid := fork_rv os (trace w1)) in *.
  assert (E1 : (0 <? pid)%Z = true) by now apply Z.ltb_lt.
  assert (E2 : (pid =? -1)%Z = false) by (apply Z.eqb_neq; lia).
  assert (E3 : (pid =? 0)%Z = false) by (apply Z.eqb_neq; lia).
  rewrite E1, E2, E3. unfold emit, log_debug, emit.
  rewrite compose_by_type. cbn [hdr_type]. unfold ret, w1.
  destruct (ok IMSG_RECONF_FILTER_PROC);
    eexists; (split; [rewrite !push_as_pushes, !pushes_pushes; reflexivity
                     | reflexivity]).
Qed.

Lemma spawn_loop_forks (l : list filter_conf) :
  forall w, exists delta,
    foreach l (fun f => if chain f then ret tt
                        else priv_send_filter_proc os f) w
    = Ret tt (pushes delta w)
    /\ forked delta = filter (fun f => negb (chain f)) l.
Proof.
  induction l as [| f l IH]; intros w; cbn [foreach filter].
  - exists []. unfold ret. now rewrite pushes_nil.
  - unfold bind. destruct (chain f); cbn [negb].
    + apply IH.
    + destruct (spawn_forks_once f w) as (d1 & -> & F1).
      destruct (IH (pushes d1 w)) as (d2 & -> & F2).
      exists (d1 ++ d2). now rewrite pushes_pushes, forked_app, F1, F2.
Qed.

(** The second loop returns when the resolver does for every entry. *)
Lemma declare_loop_returns (depth : nat) (conf : smtpfd_conf)
      (l : list filter_conf) :
  (forall f w, In f l -> returns (priv_send_filter_conf os depth conf f w)) ->
  forall w,
    returns (foreach l (fun f =>
                          proc_compose os p_engine
                            (mk_imsg IMSG_RECONF_FILTER 0 0 (-1)
                                     (str_data (name f))) ;;
                          priv_send_filter_conf os depth conf f) w).
Proof.
  induction l as [| f l IH]; intros Hl w; cbn [foreach].
  - now exists tt, w.
  - apply returns_bind.
    assert (R : returns ((proc_compose os p_engine
                            (mk_imsg IMSG_RECONF_FILTER 0 0 (-1)
                                     (str_data (name f))) ;;
                          priv_send_filter_conf os depth conf f) w)).
    { apply returns_bind. rewrite compose_by_type.
      destruct (ok _); eexists; eexists; (split; [reflexivity |]);
        apply Hl; now left. }
    destruct R as ([] & w1 & E). exists tt, w1. split; [exact E |].
    apply IH. intros g w0 Hg. apply Hl. now right.
Qed.

(** What [priv_send_config] returns and forks, by the types the engine
    handle takes. *)
Lemma send_config_outcome (conf : smtpfd_conf) (w : world) :
  acyclic conf ->
  exists depth delta,
    priv_send_config os depth conf w
    = Ret (if ok IMSG_RECONF_CONF && ok IMSG_RECONF_END then 0 else -1)%Z
          (pushes delta w)
    /\ forked delta = if ok IMSG_RECONF_CONF then leaves conf else [].
Proof.
  intros Hac. destruct (acyclic_depth os conf Hac) as (depth & Hd).
  exists depth. unfold priv_send_config.
  set (begin := E_compose p_engine (mk_imsg IMSG_RECONF_CONF 0 0 (-1) no_data)).
  destruct (ok IMSG_RECONF_CONF) eqn:Ob.
  - erewrite bind_Ret
      by (rewrite compose_by_type; cbn [hdr_type]; rewrite Ob; reflexivity).
    change (0 =? -1)%Z with false. cbv iota.
    destruct (spawn_loop_forks (filters conf) (push begin w)) as (d1 & E1 & F1).
    erewrite bind_Ret by exact E1.
    destruct (declare_loop_returns depth conf (filters conf) Hd
                (pushes d1 (push begin w))) as ([] & w2 & E3).
    assert (L2 : only_adds (fun e => forked [e] = [])
                   (foreach (filters conf)
                      (fun f =>
                         proc_compose os p_engine
                           (mk_imsg IMSG_RECONF_FILTER 0 0 (-1)
                                    (str_data (name f))) ;;
                         priv_send_filter_conf os depth conf f))).
    { apply only_adds_foreach. intros f _. apply only_adds_bind.
      - now apply only_adds_compose.
      - intros _. apply (only_adds_weaken is_node).
        + now intros e (n & ->).
        + apply resolver_only_adds. }
    destruct (L2 (pushes d1 (push begin w))) as (d2 & E2 & F2).
    rewrite E3 in E2. cbn [world_of] in E2. subst w2.
    erewrite bind_Ret by exact E3.
    unfold bind. rewrite compose_by_type. cbn [hdr_type andb].
    destruct (ok IMSG_RECONF_END); unfold ret; cbn [Z.eqb].
    + eexists ((begin :: d1) ++ d2 ++ [_]). split.
      * rewrite !push_as_pushes, !pushes_pushes. reflexivity.
      * rewrite !forked_app, (no_fork_added d2 F2). cbn [app].
        change (forked (begin :: d1)) with (forked d1).
        rewrite F1. cbn. now rewrite app_nil_r.
    + exists ((begin :: d1) ++ d2). split.
      * rewrite !push_as_pushes, !pushes_pushes. reflexivity.
      * rewrite forked_app, (no_fork_added d2 F2), app_nil_r. exact F1.
  - exists []. split; [| reflexivity].
    erewrite bind_Ret
      by (rewrite compose_by_type; cbn [hdr_type]; rewrite Ob; reflexivity).
    cbn. unfold ret. now rewrite pushes_nil.
Qed.

End Distribution_by_type.

(** X5.  [priv_send_config] looks at the result of [proc_compose] for the
    begin and the end marker only.  When the handle takes or refuses
    messages by their type, and the configuration has no chain that
    reaches itself, the call returns -1 exactly when one of the two
    markers is refused; a refused spawn, declaration or member message
    goes unnoticed.  When the begin marker is refused no filter process is
    forked; otherwise every leaf is forked once, whatever is returned. *)
Theorem only_the_markers_are_checked
        (os : os_model) (ok : imsg_type -> bool)
        (conf : smtpfd_conf) (w : world) :
  accepts_by_type os ok ->
  acyclic conf ->
  exists depth delta,
    priv_send_config os depth conf w
    = Ret (if ok IMSG_RECONF_CONF && ok IMSG_RECONF_END then 0 else -1)%Z
          (pushes delta w)
    /\ forked delta = if ok IMSG_RECONF_CONF then leaves conf else [].
Proof. intros H Hac. exact (send_config_outcome os ok H conf w Hac). Qed.

Lemma os_no_end_by_type (parsed : option smtpfd_conf) :
  accepts_by_type (os_no_end parsed)
    (fun t => match t with IMSG_RECONF_END => false | _ => true end).
Proof.
  repeat split.
  - intros tr. now exists 7%Z, 8%Z.
Qed.

Lemma only_the_markers_are_checked_witness :
  exists depth delta,
    priv_send_config (os_no_end None) depth conf_virus_all w_start
    = Ret (-1)%Z (pushes delta w_start)
    /\ forked delta = [virus].
Proof.
  exact (only_the_markers_are_checked
           (os_no_end None)
           (fun t => match t with IMSG_RECONF_END => false | _ => true end)
           conf_virus_all w_start (os_no_end_by_type None) virus_all_acyclic).
Defined.

(** X6.  A reload is not undone when its distribution fails at the end:
    if the new configuration parses and only the end marker is refused,
    [priv_reload] returns -1 and keeps the active configuration, yet a
    filter process has been forked for every leaf of the new one. *)
Theorem failed_reload_keeps_its_filter_processes
        (os : os_model) (ok : imsg_type -> bool)
        (xconf : smtpfd_conf) (w : world) :
  accepts_by_type os ok ->
  ok IMSG_RECONF_CONF = true ->
  ok IMSG_RECONF_END = false ->
  parse_config os (trace w) (conffile w) = Some xconf ->
  acyclic xconf ->
  exists depth delta,
    priv_reload os depth w = Ret (-1)%Z (pushes delta w)
    /\ forked delta = leaves xconf.
Proof.
  intros H Hb He Hp Hac.
  destruct (send_config_outcome os ok H xconf w Hac) as (depth & delta & E & F).
  rewrite Hb, He in E. rewrite Hb in F. cbn [andb] in E.
  exists depth, delta. split; [| exact F].
  unfold priv_reload, get_conffile, call_parse_config.
  unfold bind at 1 2. rewrite Hp.
  now rewrite (bind_Ret _ _ _ _ _ E).
Qed.

Lemma failed_reload_keeps_its_filter_processes_witness :
  exists depth delta,
    priv_reload (os_no_end (Some conf_virus_all)) depth (w_running conf_cycle)
    = Ret (-1)%Z (pushes delta (w_running conf_cycle))
    /\ forked delta = [virus].
Proof.
  exact (failed_reload_keeps_its_filter_processes
           (os_no_end (Some conf_virus_all))
           (fun t => match t with IMSG_RECONF_END => false | _ => true end)
           conf_virus_all (w_running conf_cycle)
           (os_no_end_by_type _) eq_refl eq_refl eq_refl virus_all_acyclic).
Defined.

Section Sequence.

Variable os : os_model.
Variable conf : smtpfd_conf.
Hypothesis fine : nothing_fails os.
Hypothesis resolve : names_resolve conf = true.

(** The second loop under an engine that takes every message: every
    declaration is followed by the members of its entry. *)
Lemma declare_loop_sequence (depth : nat) (l : list filter_conf) :
  (forall f, In f l -> In f (filters conf)) ->
  (forall f w, In f l -> returns (priv_send_filter_conf os depth conf f w)) ->
  forall w, exists delta outs,
    foreach l (fun f =>
                 proc_compose os p_engine
                   (mk_imsg IMSG_RECONF_FILTER 0 0 (-1) (str_data (name f))) ;;
                 priv_send_filter_conf os depth conf f) w
    = Ret tt (pushes delta w)
    /\ Forall2 (resolved conf) l outs
    /\ forked delta = []
    /\ map kind_of (engine_msgs delta)
       = flat_map declaration_kinds (combine l outs).
Proof.
  pose proof (proj1 fine) as accepts.
  induction l as [| f l IH]; intros Hin Hl w; cbn [foreach].
  - exists [], []. unfold ret. rewrite pushes_nil. repeat split. constructor.
  - set (decl := E_compose p_engine
                   (mk_imsg IMSG_RECONF_FILTER 0 0 (-1) (str_data (name f)))).
    destruct (Hl f (push decl w) (or_introl eq_refl)) as ([] & w2 & E).
    destruct (delivered_is_flattening os conf accepts resolve depth f
                (push decl w) w2 (Hin f (or_introl eq_refl)) E)
      as (out & -> & R).
    destruct (IH (fun g Hg => Hin g (or_intror Hg))
                 (fun g w0 Hg => Hl g w0 (or_intror Hg))
                 (pushes (map node_event out) (push decl w)))
      as (d2 & outs & E2 & R2 & F2 & K2).
    erewrite bind_Ret;
      [| erewrite bind_Ret; [exact E | apply (compose_accepted os accepts)]].
    rewrite E2.
    exists ((decl :: map node_event out) ++ d2), (out :: outs).
    split; [| split; [| split]].
    + rewrite push_as_pushes, !pushes_pushes. reflexivity.
    + constructor; [exact R | exact R2].
    + rewrite forked_app, F2, app_nil_r. change (forked (decl :: ?x)) with (forked x).
      apply nodes_fork_nothing. apply Forall_forall.
      intros e He. apply in_map_iff in He. destruct He as (n & <- & _).
      now exists n.
    + rewrite engine_msgs_app, map_app, K2. cbn [combine flat_map].
      f_equal. unfold declaration_kinds. cbn [fst snd].
      change (engine_msgs (decl :: ?x))
        with (mk_imsg IMSG_RECONF_FILTER 0 0 (-1) (str_data (name f))
              :: engine_msgs x).
      cbn [map kind_of hdr_type msg_data]. f_equal.
      clear. induction out as [| n out IH]; [reflexivity |].
      cbn [map]. rewrite <- IH. reflexivity.
Qed.

End Sequence.

(** X7.  The whole sequence a reload hands to the engine.  While nothing
    fails, on a configuration whose references all resolve and in which no
    chain reaches itself, [priv_send_config] returns 0 and the messages it
    sent are, in this order: the begin marker; one spawn message per leaf,
    in insertion order; for every entry in insertion order its declaration
    directly followed by its members (the flattening of a chain, the own
    name of a leaf); the end marker.  So every filter process is announced
    before the first declaration and nothing follows the end marker. *)
Theorem distribution_sequence
        (os : os_model) (conf : smtpfd_conf) (w : world) :
  nothing_fails os ->
  names_resolve conf = true ->
  acyclic conf ->
  exists depth delta outs,
    priv_send_config os depth conf w = Ret 0%Z (pushes delta w)
    /\ Forall2 (resolved conf) (filters conf) outs
    /\ forked delta = leaves conf
    /\ map kind_of (engine_msgs delta)
       = (IMSG_RECONF_CONF, no_data)
         :: map (fun f => (IMSG_RECONF_FILTER_PROC, str_data (name f)))
                (leaves conf)
         ++ flat_map declaration_kinds (combine (filters conf) outs)
         ++ [(IMSG_RECONF_END, no_data)].
Proof.
  intros fine Hr Hac. pose proof (proj1 fine) as accepts.
  destruct (acyclic_depth os conf Hac) as (depth & Hd).
  set (begin := E_compose p_engine (mk_imsg IMSG_RECONF_CONF 0 0 (-1) no_data)).
  set (done := E_compose p_engine (mk_imsg IMSG_RECONF_END 0 0 (-1) no_data)).
  destruct (spawn_loop os fine (filters conf) (push begin w))
    as (d1 & E1 & F1 & K1 & _).
  destruct (declare_loop_sequence os conf fine Hr depth (filters conf)
              (fun f H => H) Hd (pushes d1 (push begin w)))
    as (d2 & outs & E2 & R2 & F2 & K2).
  exists depth, ((begin :: d1) ++ d2 ++ [done]), outs.
  unfold priv_send_config.
  erewrite bind_Ret by apply (compose_accepted os accepts).
  change (0 =? -1)%Z with false. cbv iota.
  erewrite bind_Ret by exact E1.
  erewrite bind_Ret by exact E2.
  erewrite bind_Ret by apply (compose_accepted os accepts).
  change (0 =? -1)%Z with false. cbv iota. unfold ret.
  split; [| split; [exact R2 | split]].
  - rewrite !push_as_pushes, !pushes_pushes. reflexivity.
  - rewrite !forked_app, F2. change (forked (begin :: d1)) with (forked d1).
    rewrite F1. cbn. now rewrite app_nil_r.
  - rewrite !engine_msgs_app, !map_app, K2.
    change (engine_msgs (begin :: d1))
      with (mk_imsg IMSG_RECONF_CONF 0 0 (-1) no_data :: engine_msgs d1).
    cbn [map]. rewrite K1. reflexivity.
Qed.

Lemma distribution_sequence_witness :
  exists depth delta outs,
    priv_send_config (os_with 200 None) depth conf_virus_all w_start
    = Ret 0%Z (pushes delta w_start)
    /\ Forall2 (resolved conf_virus_all) [virus; all] outs
    /\ forked delta = [virus]
    /\ map kind_of (engine_msgs delta)
       = (IMSG_RECONF_CONF, no_data)
         :: [(IMSG_RECONF_FILTER_PROC, str_data "virus")]
         ++ flat_map declaration_kinds (combine [virus; all] outs)
         ++ [(IMSG_RECONF_END, no_data)].
Proof.
  exact (distribution_sequence (os_with 200 None) conf_virus_all w_start
           (os_with_nothing_fails 200 None eq_refl) eq_refl virus_all_acyclic).
Defined.

(* ================================================================== *)
(** * Further properties of the spawner *)

(** X8.  The child of the fork never comes back into the code of the
    supervisor: where [fork] returns 0, [priv_send_filter_proc] does not
    return.  The process either becomes the executable [argv[0]] of the
    entry, or exits with status 1 (a failed [dup2], [closefrom] or
    [execvp]); it has sent nothing to the engine. *)
Theorem filter_child_never_returns
        (os : os_model) (f : filter_conf) (w : world) :
  (forall tr, fork_rv os tr = 0%Z) ->
  exists hh w',
    priv_send_filter_proc os f w = Halt hh w'
    /\ (hh = Exited 1
        \/ exists path, nth_error (argv f) 0 = Some path
                        /\ hh = Execed path (skipn 1 (argv f)))
    /\ engine_msgs (trace w') = engine_msgs (trace w).
Proof.
  intros Hf.
  unfold priv_send_filter_proc, bind, socketpair.
  destruct (socketpair_rv os (trace w)) as [[a b] |].
  - unfold fork. rewrite Hf. cbn [Z.ltb Z.compare Z.eqb].
    unfold dup2.
    destruct (dup2_rv os (trace (push (E_socketpair a b) w)) =? -1)%Z eqn:Ed.
    + rewrite Ed. unfold fatal, bind, emit, exit, stop.
      eexists _, _. split; [reflexivity |]. split; [now left |].
      cbn [trace push]. rewrite !engine_msgs_app. cbn. now rewrite !app_nil_r.
    + rewrite Ed. unfold closefrom.
      match goal with
      | |- context [(closefrom_rv os ?t =? -1)%Z] =>
          destruct (closefrom_rv os t =? -1)%Z eqn:Ec
      end.
      * rewrite Ec. unfold fatal, bind, emit, exit, stop.
        eexists _, _. split; [reflexivity |]. split; [now left |].
        cbn [trace push]. rewrite !engine_msgs_app. cbn. now rewrite !app_nil_r.
      * rewrite Ec. unfold execvp.
        destruct (nth_error (argv f) 0) as [path |] eqn:En.
        -- match goal with
           | |- context [execvp_succeeds os ?t] =>
               destruct (execvp_succeeds os t)
           end.
           ++ eexists _, _. split; [reflexivity |].
              split; [right; now exists path |].
              cbn [trace push]. rewrite !engine_msgs_app. cbn.
              now rewrite !app_nil_r.
           ++ unfold fatal, bind, emit, exit, stop.
              eexists _, _. split; [reflexivity |]. split; [now left |].
              cbn [trace push]. rewrite !engine_msgs_app. cbn.
              now rewrite !app_nil_r.
        -- unfold fatal, bind, emit, exit, stop.
           eexists _, _. split; [reflexivity |]. split; [now left |].
           cbn [trace push]. rewrite !engine_msgs_app. cbn.
           now rewrite !app_nil_r.
  - unfold fatal, bind, emit, exit, stop.
    eexists _, _. split; [reflexivity |]. split; [now left |].
    cbn [trace push]. rewrite !engine_msgs_app. cbn. now rewrite !app_nil_r.
Qed.

Lemma filter_child_never_returns_witness :
  exists hh w',
    priv_send_filter_proc os_no_exec scan w_start = Halt hh w'
    /\ (hh = Exited 1
        \/ exists path, nth_error (argv scan) 0 = Some path
                        /\ hh = Execed path (skipn 1 (argv scan)))
    /\ engine_msgs (trace w') = engine_msgs (trace w_start).
Proof.
  apply (filter_child_never_returns os_no_exec scan w_start).
  reflexivity.
Defined.

Lemma chains_are_not_spawned (os : os_model) (l : list filter_conf) (w : world) :
  forallb chain l = true ->
  foreach l (fun f => if chain f then ret tt else priv_send_filter_proc os f) w
  = Ret tt w.
Proof.
  induction l as [| f l IH]; intros H; cbn [foreach].
  - reflexivity.
  - cbn [forallb] in H. apply andb_true_iff in H. destruct H as [Hc Hl].
    rewrite Hc. unfold bind, ret. now apply IH.
Qed.

(** X9.  A reload can end the supervisor.  When the new configuration
    parses, the engine takes the begin marker and [socketpair] then fails
    for the first leaf, the SIGHUP handler does not return: the process
    exits with status 1 right after the log line of [fatal], without
    going through [priv_shutdown]; the handles are not closed, no child is
    reaped and the control socket is not removed. *)
Theorem reload_is_fatal_when_socketpair_fails
        (os : os_model) (depth : nat) (w : world) (xconf : smtpfd_conf)
        (chains rest : list filter_conf) (f : filter_conf) :
  parse_config os (trace w) (conffile w) = Some xconf ->
  filters xconf = chains ++ f :: rest ->
  forallb chain chains = true ->
  chain f = false ->
  compose_accepts os (trace w) p_engine
                  (mk_imsg IMSG_RECONF_CONF 0 0 (-1) no_data) = true ->
  socketpair_rv os
    (trace w ++ [E_compose p_engine (mk_imsg IMSG_RECONF_CONF 0 0 (-1) no_data)])
  = None ->
  priv_sig_handler os depth SIGHUP w
  = Halt (Exited 1)
         (pushes [E_compose p_engine (mk_imsg IMSG_RECONF_CONF 0 0 (-1) no_data);
                  E_log LOG_fatal "socketpair" [] []] w).
Proof.
  intros Hp Hf Hc Hl Ha Hs.
  set (begin := E_compose p_engine (mk_imsg IMSG_RECONF_CONF 0 0 (-1) no_data))
    in *.
  unfold priv_sig_handler, priv_reload, get_conffile, call_parse_config.
  unfold bind at 1 2 3. rewrite Hp.
  assert (E : priv_send_config os depth xconf w
              = Halt (Exited 1)
                     (pushes [begin; E_log LOG_fatal "socketpair" [] []] w)).
  { unfold priv_send_config.
    erewrite bind_Ret by (unfold proc_compose; rewrite Ha; reflexivity).
    change (0 =? -1)%Z with false. cbv iota. fold begin.
    rewrite Hf. unfold bind at 1. rewrite foreach_app.
    erewrite bind_Ret by (apply chains_are_not_spawned; exact Hc).
    cbn [foreach]. rewrite Hl.
    unfold priv_send_filter_proc, bind, socketpair.
    cbn [trace push]. rewrite Hs.
    unfold fatal, bind, emit, exit, stop.
    now rewrite !push_as_pushes, !pushes_pushes. }
  unfold bind. now rewrite E.
Qed.

Lemma reload_is_fatal_when_socketpair_fails_witness :
  priv_sig_handler (os_no_socketpair (Some conf_virus_all)) 2 SIGHUP
                   (w_running conf_cycle)
  = Halt (Exited 1)
         (pushes [E_compose p_engine (mk_imsg IMSG_RECONF_CONF 0 0 (-1) no_data);
                  E_log LOG_fatal "socketpair" [] []]
                 (w_running conf_cycle)).
Proof.
  apply (reload_is_fatal_when_socketpair_fails
           (os_no_socketpair (Some conf_virus_all)) 2 (w_running conf_cycle)
           conf_virus_all [] [all] virus);
    reflexivity.
Defined.

(* ================================================================== *)
(** * Further properties of the signal handler and of shutdown *)

Lemma reaped_app (a b : list event) : reaped (a ++ b) = reaped a ++ reaped b.
Proof. apply flat_map_app. Qed.

(** The SIGCHLD loop over answers after which it goes round again. *)
Lemma reap_children_prefix (pre tail : list wait_rv) :
  forallb goes_on pre = true ->
  forall w, exists delta,
    reap_children (pre ++ tail) w = reap_children tail (pushes delta w)
    /\ reaped delta = children_of pre
    /\ Forall (fun e => is_reap_or_log e = true) delta.
Proof.
  induction pre as [| r pre IH]; intros H w.
  - exists []. rewrite pushes_nil. repeat split. constructor.
  - cbn [forallb] in H. apply andb_true_iff in H. destruct H as [Hr Hp].
    destruct r as [pid st | | [| |]]; try discriminate; cbn [app reap_children].
    + set (w0 := push (E_reaped pid st) w).
      assert (S : exists d1,
                 reaped d1 = []
                 /\ Forall (fun e => is_reap_or_log e = true) d1
                 /\ match st with
                    | WSIGNALED sig =>
                        log_warnx "process %d terminated by signal %d" []
                                  [pid; sig]
                    | WEXITED code =>
                        if (code =? 0)%Z
                        then log_debug "debug: process %d exited normally" []
                                       [pid]
                        else log_warnx "process %d exited with status %d" []
                                       [pid; code]
                    | WSTOPPED => ret tt
                    end w0 = Ret tt (pushes d1 w0)).
      { unfold log_warnx, log_debug, emit, ret.
        destruct st as [sig | code |]; [| destruct (code =? 0)%Z |].
        1-3: eexists [_]; split; [| split]; [ | | reflexivity];
          [reflexivity | now repeat constructor].
        exists []. rewrite pushes_nil. repeat split. constructor. }
      destruct S as (d1 & R1 & F1 & E1).
      destruct (IH Hp (pushes d1 w0)) as (d2 & E2 & R2 & F2).
      exists ((E_reaped pid st :: d1) ++ d2).
      split; [| split].
      * erewrite (bind_Ret (emit (E_reaped pid st))) by reflexivity.
        fold w0. erewrite bind_Ret by exact E1. rewrite E2.
        unfold w0. now rewrite push_as_pushes, !pushes_pushes.
      * rewrite reaped_app, R2.
        change (reaped (E_reaped pid st :: d1)) with ((pid, st) :: reaped d1).
        now rewrite R1.
      * apply Forall_app. split; [| exact F2]. now constructor.
    + apply IH. exact Hp.
Qed.

(** X10.  The SIGCHLD handler reaps in one call every child that can be
    waited for: it goes through the answers of [waitpid] that are a child
    or an interrupted call, records each child, and stops at the first
    answer that is 0 (nothing left to reap now), an error other than
    EINTR, or the absence of children.  It returns to the event loop and
    touches neither the configuration nor the loop. *)
Theorem sigchld_drains_the_waitable_children
        (os : os_model) (depth : nat) (w : world)
        (pre tail : list wait_rv) :
  waits w = pre ++ tail ->
  forallb goes_on pre = true ->
  (forall r, hd_error tail = Some r -> goes_on r = false) ->
  exists delta,
    priv_sig_handler os depth SIGCHLD w
    = Ret tt (set_waits (List.tl tail) (pushes delta w))
    /\ reaped delta = children_of pre
    /\ Forall (fun e => is_reap_or_log e = true) delta.
Proof.
  intros Hw Hp Ht. cbn [priv_sig_handler]. unfold bind, get_waits. rewrite Hw.
  destruct (reap_children_prefix pre tail Hp w) as (d & E & R & F).
  exists d. rewrite E. split; [| now split].
  destruct tail as [| r tail]; [reflexivity |].
  specialize (Ht r eq_refl).
  destruct r as [pid st | | [| |]]; try discriminate; reflexivity.
Qed.

Lemma sigchld_drains_the_waitable_children_witness :
  exists delta,
    priv_sig_handler (os_with 200 None) 1 SIGCHLD
      (w_children [wait_pid 31 (WEXITED 0); wait_err EINTR;
                   wait_pid 32 (WSIGNALED 9); wait_zero; wait_pid 33 (WEXITED 1)])
    = Ret tt (set_waits [wait_pid 33 (WEXITED 1)]
                (pushes delta
                   (w_children [wait_pid 31 (WEXITED 0); wait_err EINTR;
                                wait_pid 32 (WSIGNALED 9); wait_zero;
                                wait_pid 33 (WEXITED 1)])))
    /\ reaped delta = [(31%Z, WEXITED 0); (32%Z, WSIGNALED 9)]
    /\ Forall (fun e => is_reap_or_log e = true) delta.
Proof.
  apply (sigchld_drains_the_waitable_children
           (os_with 200 None) 1
           (w_children [wait_pid 31 (WEXITED 0); wait_err EINTR;
                        wait_pid 32 (WSIGNALED 9); wait_zero;
                        wait_pid 33 (WEXITED 1)])
           [wait_pid 31 (WEXITED 0); wait_err EINTR; wait_pid 32 (WSIGNALED 9)]
           [wait_zero; wait_pid 33 (WEXITED 1)]).
  - reflexivity.
  - reflexivity.
  - intros r H. inversion H. reflexivity.
Defined.

(** The wait loop of [priv_shutdown] over answers after which it goes
    round again. *)
Lemma shutdown_wait_prefix (engine_pid : Z) (pre tail : list wait_rv) :
  forallb goes_on pre = true ->
  forall w, exists delta,
    shutdown_wait engine_pid (pre ++ tail) w
    = shutdown_wait engine_pid tail (pushes delta w)
    /\ reaped delta = children_of pre
    /\ Forall (fun e => is_reap_or_log e = true) delta
    /\ (forall pid sig,
          In (wait_pid pid (WSIGNALED sig)) pre ->
          In (E_log LOG_warnx "%s terminated; signal %d"
                    [if (pid =? engine_pid)%Z then "engine" else "frontend"]
                    [sig]) delta).
Proof.
  induction pre as [| r pre IH]; intros H w.
  - exists []. rewrite pushes_nil. repeat split; [constructor | intros ? ? []].
  - cbn [forallb] in H. apply andb_true_iff in H. destruct H as [Hr Hp].
    destruct r as [pid st | | [| |]]; try discriminate; cbn [app shutdown_wait].
    + set (line := fun sig =>
                     E_log LOG_warnx "%s terminated; signal %d"
                           [if (pid =? engine_pid)%Z then "engine" else "frontend"]
                           [sig]).
      set (w0 := push (E_reaped pid st) w).
      set (d1 := match st with WSIGNALED sig => [line sig] | _ => [] end).
      assert (E1 : match st with
                   | WSIGNALED sig =>
                       log_warnx "%s terminated; signal %d"
                                 [if (pid =? engine_pid)%Z
                                  then "engine" else "frontend"] [sig]
                   | _ => ret tt
                   end w0 = Ret tt (pushes d1 w0)).
      { unfold log_warnx, emit, ret, d1.
        destruct st; try (now rewrite pushes_nil); reflexivity. }
      destruct (IH Hp (pushes d1 w0)) as (d2 & E2 & R2 & F2 & L2).
      exists ((E_reaped pid st :: d1) ++ d2).
      split; [| split; [| split]].
      * erewrite (bind_Ret (emit (E_reaped pid st))) by reflexivity.
        fold w0. erewrite bind_Ret by exact E1. rewrite E2.
        unfold w0. now rewrite push_as_pushes, !pushes_pushes.
      * rewrite reaped_app, R2.
        change (reaped (E_reaped pid st :: d1)) with ((pid, st) :: reaped d1).
        unfold d1. destruct st; reflexivity.
      * apply Forall_app. split; [| exact F2].
        constructor; [reflexivity |]. unfold d1.
        destruct st; now repeat constructor.
      * intros p s [Hin | Hin]; apply in_or_app.
        -- inversion Hin; subst. left. right. unfold d1, line. now left.
        -- right. now apply L2.
    + destruct (IH Hp w) as (d2 & E2 & R2 & F2 & L2). exists d2.
      repeat split; try assumption.
      intros p s [Hin | Hin]; [discriminate | now apply L2].
Qed.

(** X11.  A clean shutdown.  When the answers of [wait] are children and
    interrupted calls followed by the absence of children (ECHILD),
    [priv_shutdown] closes the frontend handle and the engine handle,
    clears the active configuration, reaps every one of these children,
    and only then removes the control socket and exits with status 0. *)
Theorem shutdown_reaps_then_cleans_up
        (os : os_model) (w : world) (pre rest : list wait_rv) :
  waits w = pre \/ waits w = pre ++ wait_err ECHILD :: rest ->
  forallb goes_on pre = true ->
  exists delta w',
    @priv_shutdown os Z w = Halt (Exited 0) w'
    /\ trace w' = trace w
                  ++ [E_proc_free p_frontend; E_proc_free p_engine;
                      E_config_clear (env w);
                      E_log LOG_debug "waiting for children to terminate" [] []]
                  ++ delta
                  ++ [E_control_cleanup (csock w);
                      E_log LOG_info "terminating" [] []]
    /\ reaped delta = children_of pre
    /\ Forall (fun e => is_reap_or_log e = true) delta.
Proof.
  intros Hw Hp.
  unfold priv_shutdown, bind, emit, get_env, config_clear, log_debug, emit,
    get_waits.
  cbn [env push waits].
  set (w0 := push _ (push _ (push _ (push _ w)))).
  assert (T : exists tail, waits w = pre ++ tail
                           /\ (tail = [] \/ tail = wait_err ECHILD :: rest)).
  { destruct Hw as [Hw | Hw]; [exists []; rewrite app_nil_r | eexists]; eauto. }
  destruct T as (tail & Hw' & Ht). rewrite Hw'.
  destruct (shutdown_wait_prefix (proc_getpid os p_frontend) pre tail Hp w0)
    as (d & E & R & F & _).
  rewrite E.
  assert (E' : exists ws, shutdown_wait (proc_getpid os p_frontend) tail
                                        (pushes d w0)
                          = Ret tt (set_waits ws (pushes d w0))).
  { destruct Ht as [-> | ->]; eexists; reflexivity. }
  destruct E' as (ws & ->).
  unfold get_csock, log_info, emit, exit, stop. cbn [csock set_waits pushes].
  exists d. eexists. split; [reflexivity |]. split; [| now split].
  unfold w0. cbn [trace push set_waits pushes csock].
  now rewrite <- !app_assoc.
Qed.

Lemma shutdown_reaps_then_cleans_up_witness :
  exists delta w',
    @priv_shutdown (os_with 200 None) Z
       (w_children [wait_pid 101 (WEXITED 0); wait_err EINTR;
                    wait_pid 102 (WSIGNALED 15)])
    = Halt (Exited 0) w'
    /\ trace w' = []
                  ++ [E_proc_free p_frontend; E_proc_free p_engine;
                      E_config_clear conf_virus_all;
                      E_log LOG_debug "waiting for children to terminate" [] []]
                  ++ delta
                  ++ [E_control_cleanup "/var/run/smtpfd.sock";
                      E_log LOG_info "terminating" [] []]
    /\ reaped delta = [(101%Z, WEXITED 0); (102%Z, WSIGNALED 15)]
    /\ Forall (fun e => is_reap_or_log e = true) delta.
Proof.
  apply (shutdown_reaps_then_cleans_up
           (os_with 200 None)
           (w_children [wait_pid 101 (WEXITED 0); wait_err EINTR;
                        wait_pid 102 (WSIGNALED 15)])
           [wait_pid 101 (WEXITED 0); wait_err EINTR; wait_pid 102 (WSIGNALED 15)]
           []).
  - left. reflexivity.
  - reflexivity.
Defined.

(** X12.  A shutdown cut short.  When [wait] fails with an error other
    than EINTR and ECHILD, [priv_shutdown] exits with status 1 through
    [fatal]: the children that had not yet been waited for are not
    reaped and the control socket is not removed. *)
Theorem shutdown_wait_failure_leaves_the_socket
        (os : os_model) (w : world) (pre rest : list wait_rv) :
  waits w = pre ++ wait_err EOTHER :: rest ->
  forallb goes_on pre = true ->
  exists delta w',
    @priv_shutdown os Z w = Halt (Exited 1) w'
    /\ trace w' = trace w
                  ++ [E_proc_free p_frontend; E_proc_free p_engine;
                      E_config_clear (env w);
                      E_log LOG_debug "waiting for children to terminate" [] []]
                  ++ delta
                  ++ [E_log LOG_fatal "wait" [] []]
    /\ reaped delta = children_of pre
    /\ Forall (fun e => is_reap_or_log e = true) delta
    /\ waits w' = rest.
Proof.
  intros Hw Hp.
  unfold priv_shutdown, bind, emit, get_env, config_clear, log_debug, emit,
    get_waits.
  cbn [env push waits].
  set (w0 := push _ (push _ (push _ (push _ w)))).
  rewrite Hw.
  destruct (shutdown_wait_prefix (proc_getpid os p_frontend) pre
              (wait_err EOTHER :: rest) Hp w0) as (d & E & R & F & _).
  rewrite E. cbn [shutdown_wait].
  unfold bind, put_waits, fatal, bind, emit, exit, stop.
  exists d. eexists. split; [reflexivity |].
  split; [| split; [exact R | split; [exact F | reflexivity]]].
  unfold w0. cbn [trace push set_waits pushes].
  now rewrite <- !app_assoc.
Qed.

Lemma shutdown_wait_failure_leaves_the_socket_witness :
  exists delta w',
    @priv_shutdown (os_with 200 None) Z
       (w_children [wait_pid 101 (WEXITED 0); wait_err EOTHER;
                    wait_pid 102 (WEXITED 0)])
    = Halt (Exited 1) w'
    /\ trace w' = []
                  ++ [E_proc_free p_frontend; E_proc_free p_engine;
                      E_config_clear conf_virus_all;
                      E_log LOG_debug "waiting for children to terminate" [] []]
                  ++ delta
                  ++ [E_log LOG_fatal "wait" [] []]
    /\ reaped delta = [(101%Z, WEXITED 0)]
    /\ Forall (fun e => is_reap_or_log e = true) delta
    /\ waits w' = [wait_pid 102 (WEXITED 0)].
Proof.
  apply (shutdown_wait_failure_leaves_the_socket
           (os_with 200 None)
           (w_children [wait_pid 101 (WEXITED 0); wait_err EOTHER;
                        wait_pid 102 (WEXITED 0)])
           [wait_pid 101 (WEXITED 0)] [wait_pid 102 (WEXITED 0)]);
    reflexivity.
Defined.

(** X13.  [priv_shutdown] takes the pid it calls the engine's from the
    frontend handle.  A child killed by a signal is therefore reported as
    "engine" exactly when its pid is the pid of the frontend, and as
    "frontend" otherwise: whenever the two pids differ, the death of the
    frontend is logged as the engine's and the death of the engine, like
    that of any filter, as the frontend's. *)
Theorem shutdown_labels_by_the_frontend_pid
        (os : os_model) (w : world) (pre tail : list wait_rv) (pid sig : Z) :
  waits w = pre ++ tail ->
  forallb goes_on pre = true ->
  In (wait_pid pid (WSIGNALED sig)) pre ->
  In (E_log LOG_warnx "%s terminated; signal %d"
            [if (pid =? proc_getpid os p_frontend)%Z
             then "engine" else "frontend"]
            [sig])
     (trace (world_of (@priv_shutdown os Z w))).
Proof.
  intros Hw Hp Hin.
  unfold priv_shutdown, bind, emit, get_env, config_clear, log_debug, emit,
    get_waits.
  cbn [env push waits].
  set (w0 := push _ (push _ (push _ (push _ w)))).
  rewrite Hw.
  destruct (shutdown_wait_prefix (proc_getpid os p_frontend) pre tail Hp w0)
    as (d & E & _ & _ & L).
  rewrite E. specialize (L pid sig Hin).
  destruct (shutdown_wait_ends os (proc_getpid os p_frontend) tail (pushes d w0))
    as (d' & w1 & T & _ & _ & [E' | E']); rewrite E'.
  - unfold get_csock, log_info, emit, exit, stop. cbn [world_of trace push].
    rewrite T. cbn [trace pushes]. apply in_or_app. left. apply in_or_app. left.
    apply in_or_app. left. apply in_or_app. now right.
  - cbn [world_of]. rewrite T. cbn [trace pushes].
    apply in_or_app. left. apply in_or_app. now right.
Qed.

Lemma shutdown_labels_by_the_frontend_pid_witness :
  In (E_log LOG_warnx "%s terminated; signal %d" ["frontend"] [11%Z])
     (trace (world_of (@priv_shutdown (os_with 200 None) Z
                          (w_children [wait_pid 102 (WSIGNALED 11)])))).
Proof.
  apply (shutdown_labels_by_the_frontend_pid
           (os_with 200 None) (w_children [wait_pid 102 (WSIGNALED 11)])
           [wait_pid 102 (WSIGNALED 11)] [] 102%Z 11%Z).
  - reflexivity.
  - reflexivity.
  - now left.
Defined.

(** X14.  SIGTERM and SIGINT end the supervisor from inside the event
    loop: the handler runs [priv_shutdown], which exits, so the events
    that follow are not dispatched, [event_dispatch] does not return and
    the [priv_shutdown] call at the end of [main] is never reached; the
    shutdown is run once. *)
Theorem terminate_signal_shuts_down_in_the_loop
        (os : os_model) (depth : nat) (sig : signal)
        (before after : list loop_event) (w w1 : world) :
  event_dispatch os depth before w = Ret tt w1 ->
  loopexit w1 = false ->
  sig = SIGTERM \/ sig = SIGINT ->
  exists status w2,
    @priv_shutdown os unit w1 = Halt (Exited status) w2
    /\ event_dispatch os depth (before ++ ev_signal sig :: after) w
       = Halt (Exited status) w2
    /\ supervise os depth (before ++ ev_signal sig :: after) w
       = Halt (Exited status) w2.
Proof.
  intros E L Hs.
  destruct (shutdown_exits os unit w1) as (status & w2 & _ & H & _).
  exists status, w2. split; [exact H |].
  assert (D : event_dispatch os depth (before ++ ev_signal sig :: after) w
              = Halt (Exited status) w2).
  { rewrite (event_dispatch_app os depth before _ w w1 E L).
    cbn [event_dispatch callback]. unfold bind.
    destruct Hs as [-> | ->]; cbn [priv_sig_handler]; now rewrite H. }
  split; [exact D |]. unfold supervise, bind. now rewrite D.
Qed.

Lemma terminate_signal_shuts_down_in_the_loop_witness :
  exists status w2,
    @priv_shutdown (os_with 200 None) unit
       (pushes [E_log LOG_debug "%s: error handling imsg %d"
                      ["priv_dispatch_engine"] []]
               (w_running conf_virus_all))
    = Halt (Exited status) w2
    /\ event_dispatch (os_with 200 None) 2
         ([ev_engine (Some (mk_imsg (IMSG_OTHER 99) 0 0 (-1) no_data))]
            ++ ev_signal SIGTERM :: [ev_signal SIGHUP])
         (w_running conf_virus_all)
       = Halt (Exited status) w2
    /\ supervise (os_with 200 None) 2
         ([ev_engine (Some (mk_imsg (IMSG_OTHER 99) 0 0 (-1) no_data))]
            ++ ev_signal SIGTERM :: [ev_signal SIGHUP])
         (w_running conf_virus_all)
       = Halt (Exited status) w2.
Proof.
  apply (terminate_signal_shuts_down_in_the_loop
           (os_with 200 None) 2 SIGTERM
           [ev_engine (Some (mk_imsg (IMSG_OTHER 99) 0 0 (-1) no_data))]
           [ev_signal SIGHUP] (w_running conf_virus_all)).
  - reflexivity.
  - reflexivity.
  - now left.
Defined.

(* ================================================================== *)
(** * Further properties of the dispatch *)

(** X15.  Messages the handlers do not know are logged and nothing else:
    after any sequence of engine messages and of frontend messages whose
    type is none of reload, verbosity and status query, the event loop
    has run one handler per message, each has added one debug log line,
    nothing was sent, no process was started, the globals are as they
    were and the loop is still running. *)
Theorem unknown_messages_are_only_logged
        (os : os_model) (depth : nat) (evs : list loop_event) (w : world) :
  forallb only_logged evs = true ->
  loopexit w = false ->
  exists delta,
    event_dispatch os depth evs w = Ret tt (pushes delta w)
    /\ List.length delta = List.length evs
    /\ Forall (fun e => exists who,
                   e = E_log LOG_debug "%s: error handling imsg %d" [who] [])
              delta.
Proof.
  revert w. induction evs as [| e evs IH]; intros w H L.
  - exists []. cbn. unfold ret. rewrite pushes_nil. repeat split. constructor.
  - cbn [forallb] in H. apply andb_true_iff in H. destruct H as [He Hr].
    assert (C : exists who,
               callback os depth e w
               = Ret tt (push (E_log LOG_debug "%s: error handling imsg %d"
                                     [who] []) w)).
    { destruct e as [[m |] | [m |] | sig]; try discriminate.
      - cbn [only_logged] in He. cbn [callback priv_dispatch_frontend].
        destruct (hdr_type m); try discriminate; eexists; reflexivity.
      - eexists; reflexivity. }
    destruct C as (who & C).
    destruct (IH (push (E_log LOG_debug "%s: error handling imsg %d" [who] []) w)
                 Hr L) as (d & E & Len & F).
    exists (E_log LOG_debug "%s: error handling imsg %d" [who] [] :: d).
    cbn [event_dispatch]. rewrite (bind_Ret _ _ _ _ _ C).
    cbn [loopexit push]. rewrite L, E.
    split; [now rewrite push_as_pushes, pushes_pushes |].
    split; [cbn; now rewrite Len |].
    constructor; [now exists who | exact F].
Qed.

Lemma unknown_messages_are_only_logged_witness :
  exists delta,
    event_dispatch (os_with 200 None) 2
      [ev_engine (Some (mk_imsg IMSG_RECONF_END 0 0 (-1) no_data));
       ev_frontend (Some (mk_imsg (IMSG_OTHER 7) 0 0 (-1) no_data))]
      (w_running conf_virus_all)
    = Ret tt (pushes delta (w_running conf_virus_all))
    /\ List.length delta = 2
    /\ Forall (fun e => exists who,
                   e = E_log LOG_debug "%s: error handling imsg %d" [who] [])
              delta.
Proof.
  apply (unknown_messages_are_only_logged
           (os_with 200 None) 2
           [ev_engine (Some (mk_imsg IMSG_RECONF_END 0 0 (-1) no_data));
            ev_frontend (Some (mk_imsg (IMSG_OTHER 7) 0 0 (-1) no_data))]
           (w_running conf_virus_all));
    reflexivity.
Defined.

Lemma world_of_bind {A B : Type} (m : M A) (k : A -> M B) (w : world) :
  world_of (bind m k w)
  = match m w with
    | Ret a w1 => world_of (k a w1)
    | Halt _ w1 => w1
    | Deeper w1 => w1
    end.
Proof. unfold bind. destruct (m w); reflexivity. Qed.

Lemma from_parser_trans (os : os_model) (c0 c1 c2 : smtpfd_conf) :
  from_parser os c0 c1 -> from_parser os c1 c2 -> from_parser os c0 c2.
Proof.
  intros [-> | H1] [-> | H2]; unfold from_parser; auto.
Qed.

Lemma reload_env (os : os_model) (depth : nat) (w : world) :
  from_parser os (env w) (env (world_of (priv_reload os depth w))).
Proof.
  unfold priv_reload, get_conffile, call_parse_config.
  unfold bind at 1 2.
  destruct (parse_config os (trace w) (conffile w)) as [xconf |] eqn:Hp;
    [| now left].
  pose proof (only_adds_env _ (priv_send_config os depth xconf) w
                (send_config_only_adds os depth xconf)) as He.
  rewrite world_of_bind.
  destruct (priv_send_config os depth xconf w) as [r w1 | hh w1 | w1];
    cbn [world_of] in *; try (now left).
  destruct (r =? -1)%Z; [now left |].
  right. exists (trace w), (conffile w). exact Hp.
Qed.

Lemma reap_children_env (ws : list wait_rv) :
  forall w, env (world_of (reap_children ws w)) = env w.
Proof.
  induction ws as [| r ws IH]; intros w; [reflexivity |].
  destruct r as [pid st | | [| |]]; cbn [reap_children]; try reflexivity;
    try apply IH.
  unfold bind, emit, log_warnx, log_debug, emit, ret.
  destruct st as [sig | code |]; [| destruct (code =? 0)%Z |];
    rewrite IH; reflexivity.
Qed.

Lemma shutdown_env (os : os_model) (A : Type) (w : world) :
  env (world_of (@priv_shutdown os A w)) = env w.
Proof.
  unfold priv_shutdown, bind, emit, get_env, config_clear, log_debug, emit,
    get_waits.
  cbn [env push waits].
  set (w0 := push _ (push _ (push _ (push _ w)))).
  destruct (shutdown_wait_ends os (proc_getpid os p_frontend) (waits w) w0)
    as (d & w1 & _ & V & _ & [E | E]); rewrite E.
  - unfold get_csock, log_info, emit, exit, stop. cbn [world_of env push].
    exact V.
  - exact V.
Qed.

Lemma callback_env (os : os_model) (depth : nat) (e : loop_event) (w : world) :
  from_parser os (env w) (env (world_of (callback os depth e w))).
Proof.
  destruct e as [[m |] | [m |] | sig]; cbn [callback]; try (now left).
  - cbn [priv_dispatch_frontend].
    destruct (hdr_type m); try (now left).
    + rewrite world_of_bind. pose proof (reload_env os depth w) as H.
      destruct (priv_reload os depth w) as [r w1 | |]; cbn [world_of] in *;
        try exact H.
      destruct (r =? -1)%Z; exact H.
    + rewrite world_of_bind. unfold proc_compose.
      destruct (compose_accepts os (trace w) p_frontend _); now left.
  - destruct sig; cbn [priv_sig_handler].
    + left. unfold bind, get_waits. apply reap_children_env.
    + left. apply shutdown_env.
    + left. apply shutdown_env.
    + rewrite world_of_bind. pose proof (reload_env os depth w) as H.
      destruct (priv_reload os depth w) as [r w1 | |]; cbn [world_of] in *;
        try exact H.
      destruct (r =? -1)%Z; exact H.
    + now left.
Qed.

(** X16.  The active configuration is only ever replaced by a
    configuration that [parse_config] returned: after any sequence of
    messages, closures and signals, in any environment and however the
    run ends, [env] is the configuration the loop started with or one
    that the parser produced.  No handler builds or edits a
    configuration. *)
Theorem active_configuration_comes_from_the_parser
        (os : os_model) (depth : nat) (evs : list loop_event) (w : world) :
  from_parser os (env w) (env (world_of (event_dispatch os depth evs w))).
Proof.
  revert w. induction evs as [| e evs IH]; intros w; [now left |].
  cbn [event_dispatch]. rewrite world_of_bind.
  pose proof (callback_env os depth e w) as H.
  destruct (callback os depth e w) as [[] w1 | hh w1 | w1];
    cbn [world_of] in H; try exact H.
  destruct (loopexit w1); [exact H |].
  exact (from_parser_trans os _ _ _ H (IH w1)).
Qed.

(* ================================================================== *)
(** * Further properties of [main] *)

Lemma getopt_rv_eq_dec (a b : getopt_rv) : {a = b} + {a <> b}.
Proof. decide equality; apply string_dec. Qed.

Section Options_known.

Variable os : os_model.
Variable h : smtpfd_h.
Variable progname : string.

(** One turn of the option loop on an option that [getopt] knows. *)
Lemma main_option_known (l : main_locals) (ch : getopt_rv) (w : world) :
  ch <> opt_unknown ->
  exists l1 w1 pre,
    main_option os h progname l ch w = Ret l1 w1
    /\ trace w1 = trace w ++ pre
    /\ Forall (fun e => is_report e = true) pre
    /\ env w1 = env w /\ waits w1 = waits w /\ loopexit w1 = loopexit w
    /\ debug l1 = (if is_opt_d ch then 1%Z else debug l)
    /\ engine_flag l1 = (if is_opt_E ch then 1%Z else engine_flag l)
    /\ frontend_flag l1 = (if is_opt_F ch then 1%Z else frontend_flag l)
    /\ conffile w1 = conffile_after [ch] (conffile w)
    /\ csock w1 = csock_after [ch] (csock w).
Proof.
  intros Hu. destruct ch; try contradiction; cbn [main_option].
  - unfold bind, log_warnx, emit, ret.
    destruct (cmdline_symset os optarg <? 0)%Z.
    + eexists l, _, [_]. repeat split. now repeat constructor.
    + exists l, w, []. rewrite app_nil_r. repeat split. constructor.
  - eexists _, w, []. rewrite app_nil_r. repeat split. constructor.
  - eexists _, w, []. rewrite app_nil_r. repeat split. constructor.
  - eexists _, w, []. rewrite app_nil_r. repeat split. constructor.
  - unfold bind, put_conffile, ret. eexists l, _, [].
    cbn [trace set_conffile]. rewrite app_nil_r. repeat split. constructor.
  - unfold bind, get_cmd_opts, put_cmd_opts, ret. eexists l, _, [].
    cbn [trace set_cmd_opts]. rewrite app_nil_r. repeat split. constructor.
  - unfold bind, put_csock, ret. eexists l, _, [].
    cbn [trace set_csock]. rewrite app_nil_r. repeat split. constructor.
  - unfold bind, get_cmd_opts, put_cmd_opts, ret.
    destruct (flag_set (cmd_opts w) (OPT_VERBOSE h));
      (eexists l, _, []; cbn [trace set_cmd_opts cmd_opts];
       rewrite app_nil_r; repeat split; constructor).
Qed.

Lemma conffile_after_cons (ch : getopt_rv) (opts : list getopt_rv) (cur : string) :
  conffile_after (ch :: opts) cur = conffile_after opts (conffile_after [ch] cur).
Proof. destruct ch; reflexivity. Qed.

Lemma csock_after_cons (ch : getopt_rv) (opts : list getopt_rv) (cur : string) :
  csock_after (ch :: opts) cur = csock_after opts (csock_after [ch] cur).
Proof. destruct ch; reflexivity. Qed.

(** The option loop on options that [getopt] knows. *)
Lemma getopt_loop_known (opts : list getopt_rv) :
  ~ In opt_unknown opts ->
  forall l w, exists l' w' pre,
    getopt_loop os h progname l opts w = Ret l' w'
    /\ trace w' = trace w ++ pre
    /\ Forall (fun e => is_report e = true) pre
    /\ env w' = env w /\ waits w' = waits w /\ loopexit w' = loopexit w
    /\ debug l' = (if existsb is_opt_d opts then 1%Z else debug l)
    /\ engine_flag l' = (if existsb is_opt_E opts then 1%Z else engine_flag l)
    /\ frontend_flag l'
       = (if existsb is_opt_F opts then 1%Z else frontend_flag l)
    /\ conffile w' = conffile_after opts (conffile w)
    /\ csock w' = csock_after opts (csock w).
Proof.
  induction opts as [| ch opts IH]; intros Hu l w.
  - exists l, w, []. rewrite app_nil_r. repeat split. constructor.
  - destruct (main_option_known l ch w)
      as (l1 & w1 & p1 & E1 & T1 & F1 & V1 & W1 & L1 & D1 & G1 & R1 & C1 & S1);
      [intros ->; apply Hu; now left |].
    destruct (IH (fun H => Hu (or_intror H)) l1 w1)
      as (l' & w' & p2 & E2 & T2 & F2 & V2 & W2 & L2 & D2 & G2 & R2 & C2 & S2).
    exists l', w', (p1 ++ p2). cbn [getopt_loop existsb].
    rewrite (bind_Ret _ _ _ _ _ E1), E2, T2, T1, V2, V1, W2, W1, L2, L1,
      D2, D1, G2, G1, R2, R1, C2, C1, S2, S1, app_assoc,
      <- conffile_after_cons, <- csock_after_cons.
    repeat split.
    + now apply Forall_app.
    + destruct (is_opt_d ch), (existsb is_opt_d opts); reflexivity.
    + destruct (is_opt_E ch), (existsb is_opt_E opts); reflexivity.
    + destruct (is_opt_F ch), (existsb is_opt_F opts); reflexivity.
Qed.


End Options_known.



(** X18.  The option loop of [main].  On options that [getopt] knows the
    loop returns, and: [-d], [-E] and [-F] set their flag however often and
    in whatever order they are given; the configuration file is the
    argument of the last [-f] and the control socket the argument of the
    last [-s], the previous value when the option is absent; apart from
    warnings about macro definitions nothing is done. *)
Theorem options_set_flags_and_paths
        (os : os_model) (h : smtpfd_h) (progname : string)
        (opts : list getopt_rv) (l : main_locals) (w : world) :
  ~ In opt_unknown opts ->
  exists l' w' pre,
    getopt_loop os h progname l opts w = Ret l' w'
    /\ trace w' = trace w ++ pre
    /\ Forall (fun e => is_report e = true) pre
    /\ env w' = env w
    /\ debug l' = (if existsb is_opt_d opts then 1%Z else debug l)
    /\ engine_flag l' = (if existsb is_opt_E opts then 1%Z else engine_flag l)
    /\ frontend_flag l'
       = (if existsb is_opt_F opts then 1%Z else frontend_flag l)
    /\ conffile w' = conffile_after opts (conffile w)
    /\ csock w' = csock_after opts (csock w).
Proof.
  intros Hu.
  destruct (getopt_loop_known os h progname opts Hu l w)
    as (l' & w' & pre & E & T & F & V & _ & _ & D & G & R & C & S).
  exists l', w', pre. repeat split; assumption.
Qed.

Lemma options_set_flags_and_paths_witness :
  exists l' w' pre,
    getopt_loop (os_with 200 None) header "smtpfd" (mk_locals 0 0 0)
                [opt_f "a.conf"; opt_d; opt_s "x.sock"; opt_f "b.conf"; opt_d]
                w_start
    = Ret l' w'
    /\ trace w' = trace w_start ++ pre
    /\ Forall (fun e => is_report e = true) pre
    /\ env w' = env w_start
    /\ debug l' = 1%Z
    /\ engine_flag l' = 0%Z
    /\ frontend_flag l' = 0%Z
    /\ conffile w' = "b.conf"
    /\ csock w' = "x.sock".
Proof.
  apply (options_set_flags_and_paths
           (os_with 200 None) header "smtpfd"
           [opt_f "a.conf"; opt_d; opt_s "x.sock"; opt_f "b.conf"; opt_d]
           (mk_locals 0 0 0) w_start).
  simpl. intuition discriminate.
Defined.

Lemma quiet_has_no_start (tr : list event) (e : event) :
  Forall (fun x => starts_process x = false) tr ->
  In e tr -> starts_process e = true -> False.
Proof.
  intros F Hin Hs. rewrite Forall_forall in F. specialize (F _ Hin). congruence.
Qed.

(** X19.  No process is started before the checks of [main] have passed.
    If a run of [main] forks or executes anything at all, then the
    effective user id was 0, the run-time account exists, the
    configuration file was parsed, and no argument was left after the
    options. *)
Theorem no_process_before_the_checks
        (os : os_model) (h : smtpfd_h) (depth : nat) (progname : string)
        (argv0 : option string) (opts : list getopt_rv) (rest : list string)
        (evs : list loop_event) (w : world) (e : event) :
  Forall (fun x => starts_process x = false) (trace w) ->
  In e (trace (world_of (main os h depth progname argv0 opts rest evs w))) ->
  starts_process e = true ->
  geteuid os = 0%Z
  /\ getpwnam_found os = true
  /\ rest = []
  /\ exists tr path c, parse_config os tr path = Some c.
Proof.
  intros Qw Hin Hs.
  set (w0 := push (E_setverbose 1)
                  (set_csock (SMTPFD_SOCKET h) (set_conffile (CONF_FILE h) w))).
  destruct (getopt_loop_quiet os h progname opts (mk_locals 0 0 0) w0)
    as (d & T & Qd).
  assert (Q1 : Forall (fun x => starts_process x = false)
                      (trace (world_of (getopt_loop os h progname
                                          (mk_locals 0 0 0) opts w0)))).
  { rewrite T. apply Forall_app. split; [| exact Qd].
    unfold w0. cbn [trace push set_csock set_conffile].
    apply Forall_app. split; [exact Qw | now repeat constructor]. }
  clear T Qd d.
  revert Hin.
  unfold main, bind, put_conffile, put_csock, log_setverbose, emit. fold w0.
  destruct (getopt_loop os h progname (mk_locals 0 0 0) opts w0)
    as [l w1 | hh w1 | w1]; cbn [world_of] in Q1;
    try (intros Hin; exfalso; exact (quiet_has_no_start _ _ Q1 Hin Hs)).
  assert (P : forall e0, starts_process e0 = false ->
                         ~ In e (trace (push e0 w1))).
  { intros e0 He0 Hin. apply (quiet_has_no_start (trace (push e0 w1)) e);
      [| exact Hin | exact Hs].
    cbn [trace push]. apply Forall_app. split; [exact Q1 | now repeat constructor]. }
  destruct rest as [| a rest].
  2:{ cbn [List.length Z.of_nat Z.ltb Z.compare orb].
      unfold usage, bind, emit, exit, stop.
      intros Hin. exfalso. revert Hin. cbn [world_of]. now apply P. }
  cbn [List.length Z.of_nat Z.ltb Z.compare orb].
  unfold get_cmd_opts, get_csock.
  destruct (negb (engine_flag l =? 0)%Z) eqn:Fe;
    destruct (negb (frontend_flag l =? 0)%Z) eqn:Ff;
    cbn [andb]; unfold usage, engine, frontend, bind, emit, exit, stop, ret;
    try (intros Hin; exfalso; revert Hin; cbn [world_of];
         first [now apply P
               | intros Hin; exact (quiet_has_no_start _ _ Q1 Hin Hs)]).
  unfold get_conffile, call_parse_config.
  destruct (parse_config os (trace w1) (conffile w1)) as [c |] eqn:Hp;
    [| intros Hin; exfalso; exact (quiet_has_no_start _ _ Q1 Hin Hs)].
  unfold put_env. cbn [cmd_opts set_env].
  destruct (flag_set (cmd_opts w1) (OPT_NOACTION h)).
  { destruct (flag_set (cmd_opts w1) (OPT_VERBOSE h)).
    - rewrite config_print_lines. cbn [world_of trace pushes set_env].
      intros Hin. exfalso. revert Hin Hs. apply quiet_has_no_start.
      apply Forall_app. split; [exact Q1 | apply config_lines_quiet].
    - cbn [world_of trace push set_env].
      intros Hin. exfalso. revert Hin Hs. apply quiet_has_no_start.
      apply Forall_app. split; [exact Q1 | now repeat constructor]. }
  destruct (geteuid os =? 0)%Z eqn:Hu; cbn [negb].
  2:{ unfold fatal, bind, emit, exit, stop. cbn [world_of trace push set_env].
      intros Hin. exfalso. revert Hin Hs. apply quiet_has_no_start.
      apply Forall_app. split; [exact Q1 | now repeat constructor]. }
  destruct (getpwnam_found os) eqn:Hg; cbn [negb].
  2:{ unfold fatal, bind, emit, exit, stop. cbn [world_of trace push set_env].
      intros Hin. exfalso. revert Hin Hs. apply quiet_has_no_start.
      apply Forall_app. split; [exact Q1 | now repeat constructor]. }
  intros _. apply Z.eqb_eq in Hu.
  repeat split; try assumption. now exists (trace w1), (conffile w1), c.
Qed.

Lemma no_process_before_the_checks_witness :
  geteuid (os_with 200 (Some conf_virus_all)) = 0%Z
  /\ getpwnam_found (os_with 200 (Some conf_virus_all)) = true
  /\ @nil string = []
  /\ exists tr path c,
      parse_config (os_with 200 (Some conf_virus_all)) tr path = Some c.
Proof.
  apply (no_process_before_the_checks
           (os_with 200 (Some conf_virus_all)) header 2 "smtpfd" (Some "smtpfd")
           [opt_d] [] [] w_start
           (E_proc_exec PROC_FRONTEND
                        ["smtpfd"; "-F"; "-d"; "-s"; "/var/run/smtpfd.sock"])).
  - constructor.
  - vm_compute. tauto.
  - reflexivity.
Defined.

Lemma flag_set_zero (f : Z) : flag_set 0 f = false.
Proof. unfold flag_set. now rewrite Z.land_0_l. Qed.

Lemma absent_option (p : getopt_rv -> bool) (o : getopt_rv)
      (opts : list getopt_rv) :
  (forall x, p x = true -> x = o) -> ~ In o opts -> existsb p opts = false.
Proof.
  intros Hp Hn. destruct (existsb p opts) eqn:E; [| reflexivity].
  apply existsb_exists in E. destruct E as (x & Hx & Px).
  apply Hp in Px. subst. contradiction.
Qed.

Section Option_bits.

Variable os : os_model.
Variable h : smtpfd_h.
Variable progname : string.
Hypothesis bits : flags_disjoint h.

(** The three option bits after the loop. *)
Lemma getopt_loop_bits (opts : list getopt_rv) :
  ~ In opt_unknown opts ->
  forall l w, exists l' w',
    getopt_loop os h progname l opts w = Ret l' w'
    /\ (~ In opt_n opts ->
        flag_set (cmd_opts w') (OPT_NOACTION h)
        = flag_set (cmd_opts w) (OPT_NOACTION h))
    /\ flag_set (cmd_opts w') (OPT_VERBOSE h)
       = flag_set (cmd_opts w) (OPT_VERBOSE h) || (0 <? count_v opts)%nat
    /\ flag_set (cmd_opts w') (OPT_VERBOSE2 h)
       = flag_set (cmd_opts w) (OPT_VERBOSE2 h)
         || (if flag_set (cmd_opts w) (OPT_VERBOSE h)
             then (0 <? count_v opts)%nat else (1 <? count_v opts)%nat).
Proof.
  destruct bits as (Hn & Hv & Hv2 & Hnv & Hvn & Hv2n & Hnv2 & Hvv2 & Hv2v).
  induction opts as [| ch opts IH]; intros Hu l w; cbn [getopt_loop].
  - exists l, w. split; [reflexivity |]. split; [reflexivity |].
    change (count_v []) with 0. split.
    + now rewrite orb_false_r.
    + destruct (flag_set (cmd_opts w) (OPT_VERBOSE h)); now rewrite orb_false_r.
  - destruct (main_option_outcome os h progname l ch w)
      as [(-> & _) | (_ & l1 & w1 & pre & E & _ & _ & _ & _ & Ho & Hon & Hov)];
      [exfalso; apply Hu; now left |].
    destruct (IH (fun H => Hu (or_intror H)) l1 w1)
      as (l' & w' & E' & N' & V' & W').
    exists l', w'. rewrite (bind_Ret _ _ _ _ _ E), E'.
    split; [reflexivity |].
    assert (K : ch <> opt_n -> ch <> opt_v -> count_v (ch :: opts) = count_v opts)
      by (intros; destruct ch; try reflexivity; contradiction).
    destruct (getopt_rv_eq_dec ch opt_n) as [-> | Nn];
      [| destruct (getopt_rv_eq_dec ch opt_v) as [-> | Nv]].
    + (* -n *)
      rewrite (Hon eq_refl) in *.
      rewrite (flag_set_lor_other _ _ _ Hnv) in V', W'.
      rewrite (flag_set_lor_other _ _ _ Hnv2) in W'.
      split; [intros H; exfalso; apply H; now left |].
      split; [exact V' | exact W'].
    + (* -v *)
      rewrite (Hov eq_refl) in *.
      change (count_v (opt_v :: opts)) with (S (count_v opts)).
      assert (A : flag_set (Z.lor (if flag_set (cmd_opts w) (OPT_VERBOSE h)
                                   then Z.lor (cmd_opts w) (OPT_VERBOSE2 h)
                                   else cmd_opts w) (OPT_VERBOSE h))
                           (OPT_VERBOSE h) = true)
        by now apply flag_set_lor_same.
      rewrite A in V', W'.
      rewrite (flag_set_lor_other _ _ _ Hvv2) in W'.
      rewrite (flag_set_lor_other _ _ _ Hvn) in N'.
      split; [| split].
      * intros H. rewrite N' by (intros Hin; apply H; now right).
        destruct (flag_set (cmd_opts w) (OPT_VERBOSE h)); [| reflexivity].
        now apply flag_set_lor_other.
      * rewrite V'. now rewrite orb_true_r.
      * rewrite W'.
        destruct (flag_set (cmd_opts w) (OPT_VERBOSE h)).
        -- rewrite (flag_set_lor_same _ _ Hv2). now rewrite orb_true_r.
        -- reflexivity.
    + rewrite (Ho Nn Nv) in *. rewrite (K Nn Nv).
      split; [| split; [exact V' | exact W']].
      intros H. apply N'. intros Hin. apply H. now right.
Qed.

End Option_bits.

(** X20.  The verbosity bits.  When the three option bits of the header
    are distinct single flags and [cmd_opts] starts at 0, after the option
    loop the verbose bit is set exactly when [-v] was given at least once
    and the second-level bit exactly when it was given at least twice; a
    third [-v] changes nothing more. *)
Theorem verbosity_has_two_levels
        (os : os_model) (h : smtpfd_h) (progname : string)
        (opts : list getopt_rv) (l : main_locals) (w : world) :
  flags_disjoint h ->
  cmd_opts w = 0%Z ->
  ~ In opt_unknown opts ->
  exists l' w',
    getopt_loop os h progname l opts w = Ret l' w'
    /\ flag_set (cmd_opts w') (OPT_VERBOSE h) = (1 <=? count_v opts)%nat
    /\ flag_set (cmd_opts w') (OPT_VERBOSE2 h) = (2 <=? count_v opts)%nat.
Proof.
  intros bits H0 Hu.
  destruct (getopt_loop_bits os h progname bits opts Hu l w)
    as (l' & w' & E & _ & V & W).
  exists l', w'. split; [exact E |].
  rewrite H0, !flag_set_zero in *. cbn [orb] in *.
  rewrite V, W. split.
  - destruct (count_v opts); reflexivity.
  - destruct (count_v opts) as [| [| n]]; reflexivity.
Qed.

Lemma header_flags_disjoint : flags_disjoint header.
Proof. repeat split; discriminate. Qed.

Lemma verbosity_has_two_levels_witness :
  exists l' w',
    getopt_loop (os_with 200 None) header "smtpfd" (mk_locals 0 0 0)
                [opt_v; opt_d; opt_v; opt_v] w_start
    = Ret l' w'
    /\ flag_set (cmd_opts w') (OPT_VERBOSE header) = true
    /\ flag_set (cmd_opts w') (OPT_VERBOSE2 header) = true.
Proof.
  apply (verbosity_has_two_levels
           (os_with 200 None) header "smtpfd"
           [opt_v; opt_d; opt_v; opt_v] (mk_locals 0 0 0) w_start
           header_flags_disjoint eq_refl).
  simpl. intuition discriminate.
Defined.

(** [main] up to the frontend: the options, the checks, [daemon], the
    start-up line and the start of the frontend with its vector. *)
Lemma main_until_the_frontend
        (os : os_model) (h : smtpfd_h) (depth : nat) (progname : string)
        (argv0 : option string) (opts : list getopt_rv)
        (evs : list loop_event) (w : world) (c : smtpfd_conf) :
  flags_disjoint h ->
  cmd_opts w = 0%Z ->
  ~ In opt_unknown opts -> ~ In opt_E opts -> ~ In opt_F opts ->
  ~ In opt_n opts ->
  (forall tr, parse_config os tr (conffile_after opts (CONF_FILE h)) = Some c) ->
  geteuid os = 0%Z ->
  getpwnam_found os = true ->
  exists pre w',
    main os h depth progname argv0 opts [] evs w = Halt (OutOfBounds (-3)) w'
    /\ Forall (fun e => is_report e = true) pre
    /\ trace w'
       = trace w ++ pre
         ++ (if existsb is_opt_d opts then [] else [E_daemon])
         ++ [E_log LOG_info "startup" [] [];
             E_proc_exec PROC_FRONTEND
               (match argv0 with Some s => s | None => "smtpfd" end
                :: "-F"
                :: (if existsb is_opt_d opts then ["-d"] else [])
                ++ (if (0 <? count_v opts)%nat then ["-v"] else [])
                ++ ["-s"; csock_after opts (SMTPFD_SOCKET h)])]
    /\ env w' = c.
Proof.
  intros bits H0 Hu HE HF Hn Hparse Hroot Huser.
  set (w0 := push (E_setverbose 1)
                  (set_csock (SMTPFD_SOCKET h) (set_conffile (CONF_FILE h) w))).
  destruct (getopt_loop_known os h progname opts Hu (mk_locals 0 0 0) w0)
    as (l & w1 & pre & E & T & F & _ & _ & _ & D & G & R & C & S).
  destruct (getopt_loop_bits os h progname bits opts Hu (mk_locals 0 0 0) w0)
    as (l2 & w2 & E2 & N & V & _).
  rewrite E in E2. inversion E2; subst l2 w2. clear E2.
  specialize (N Hn).
  assert (Z0 : cmd_opts w0 = 0%Z) by exact H0.
  rewrite Z0, flag_set_zero in N, V. cbn [orb] in V.
  rewrite (absent_option is_opt_E opt_E opts) in G
    by (try exact HE; intros []; (discriminate || reflexivity)).
  rewrite (absent_option is_opt_F opt_F opts) in R
    by (try exact HF; intros []; (discriminate || reflexivity)).
  cbn [debug engine_flag frontend_flag] in D, G, R.
  assert (C' : conffile w1 = conffile_after opts (CONF_FILE h)) by exact C.
  assert (S' : csock w1 = csock_after opts (SMTPFD_SOCKET h)) by exact S.
  unfold main, bind, put_conffile, put_csock, log_setverbose, emit. fold w0.
  rewrite E, G, R.
  cbn [List.length Z.of_nat Z.ltb Z.compare Z.eqb negb andb orb].
  unfold ret, get_cmd_opts, get_csock, get_conffile, call_parse_config.
  rewrite C', Hparse. unfold put_env. cbn [cmd_opts set_env].
  rewrite N, Hroot, Huser, V, D.
  exists (E_setverbose 1
          :: pre ++ [E_setverbose (Z.land (cmd_opts w1) (OPT_VERBOSE h))]).
  unfold log_info, emit, store_next, store, bind, ret, get_csock, proc_exec, emit.
  clear E. destruct w1 as [tr1 env1 cf1 cs1 co1 le1 wa1].
  cbn [trace csock cmd_opts] in *. subst tr1 cs1.
  destruct (existsb is_opt_d opts); destruct (0 <? count_v opts)%nat;
    (eexists; split; [reflexivity |]);
    (split; [constructor; [reflexivity |];
             apply Forall_app; split; [exact F | now repeat constructor] |]);
    (split; [| reflexivity]);
    unfold w0; lazy - [app];
    repeat (progress (rewrite <- ?app_assoc; cbn [app])); reflexivity.
Qed.

(** X21.  How the frontend is started.  On an accepted command line
    without [-n], as root, with the run-time account present and a
    configuration file (the argument of the last [-f], the default
    otherwise) that parses: what [main] does begins with reports only,
    then [daemon] unless [-d] was given, the log line "startup" and the
    start of the frontend, the first process it starts, with the vector
    [argv[0]] (or "smtpfd"), "-F", "-d" if [-d] was given, "-v" if [-v]
    was given, "-s" and the control socket (the argument of the last
    [-s], the default otherwise).  Every store that builds this vector
    is inside [rargv]. *)
Theorem frontend_is_started_with_the_options
        (os : os_model) (h : smtpfd_h) (depth : nat) (progname : string)
        (argv0 : option string) (opts : list getopt_rv)
        (evs : list loop_event) (w : world) (c : smtpfd_conf) :
  flags_disjoint h ->
  cmd_opts w = 0%Z ->
  ~ In opt_unknown opts -> ~ In opt_E opts -> ~ In opt_F opts ->
  ~ In opt_n opts ->
  (forall tr, parse_config os tr (conffile_after opts (CONF_FILE h)) = Some c) ->
  geteuid os = 0%Z ->
  getpwnam_found os = true ->
  exists pre rest,
    Forall (fun e => is_report e = true) pre
    /\ trace (world_of (main os h depth progname argv0 opts [] evs w))
       = trace w ++ pre
         ++ (if existsb is_opt_d opts then [] else [E_daemon])
         ++ [E_log LOG_info "startup" [] [];
             E_proc_exec PROC_FRONTEND
               (match argv0 with Some s => s | None => "smtpfd" end
                :: "-F"
                :: (if existsb is_opt_d opts then ["-d"] else [])
                ++ (if (0 <? count_v opts)%nat then ["-v"] else [])
                ++ ["-s"; csock_after opts (SMTPFD_SOCKET h)])]
         ++ rest.
Proof.
  intros bits H0 Hu HE HF Hn Hparse Hroot Huser.
  destruct (main_until_the_frontend os h depth progname argv0 opts evs w c
              bits H0 Hu HE HF Hn Hparse Hroot Huser)
    as (pre & w' & E & F & T & _).
  exists pre, []. split; [exact F |].
  rewrite E. cbn [world_of]. rewrite T.
  now rewrite app_nil_r.
Qed.

Lemma frontend_is_started_with_the_options_witness :
  exists pre rest,
    Forall (fun e => is_report e = true) pre
    /\ trace (world_of
                (main (os_with 200 (Some conf_virus_all)) header 2 "smtpfd"
                      (Some "/usr/sbin/smtpfd")
                      [opt_v; opt_s "/tmp/s.sock"] [] [] w_start))
       = trace w_start ++ pre
         ++ [E_daemon]
         ++ [E_log LOG_info "startup" [] [];
             E_proc_exec PROC_FRONTEND
               ["/usr/sbin/smtpfd"; "-F"; "-v"; "-s"; "/tmp/s.sock"]]
         ++ rest.
Proof.
  apply (frontend_is_started_with_the_options
           (os_with 200 (Some conf_virus_all)) header 2 "smtpfd"
           (Some "/usr/sbin/smtpfd") [opt_v; opt_s "/tmp/s.sock"] [] w_start
           conf_virus_all header_flags_disjoint eq_refl);
    try reflexivity; simpl; intuition discriminate.
Defined.

(* ================================================================== *)
(** * Further properties of [config_print] *)

Lemma newlines_app (a b : list event) : newlines (a ++ b) = newlines a + newlines b.
Proof. unfold newlines. now rewrite map_app, list_sum_app. Qed.

Lemma line_ends_app (a b : string) :
  line_ends (a ++ b)%string = line_ends a + line_ends b.
Proof.
  induction a as [| c a IH]; [reflexivity |].
  cbn [String.append line_ends]. rewrite IH. lia.
Qed.

(** X22.  [config_print] writes to stdout only, and the call returns
    without touching anything else.  The line-end characters of what it
    writes are one for every entry of the configuration and those that
    the names and the arguments of the entries hold themselves: the
    listing has one line per entry exactly when no name and no argument
    holds a line end. *)
Theorem config_print_writes_one_line_per_entry (c : smtpfd_conf) (w : world) :
  exists delta,
    config_print c w = Ret tt (pushes delta w)
    /\ Forall (fun e => exists t, e = E_print stdout t) delta
    /\ newlines delta = List.length (filters c) + inner_line_ends c.
Proof.
  exists (config_lines c). split; [apply config_print_lines |].
  unfold config_lines, inner_line_ends. destruct c as [l]. cbn [filters].
  induction l as [| f l [IH1 IH2]]; [split; [constructor | reflexivity] |].
  cbn [flat_map]. split.
  - apply Forall_app. split; [| exact IH1].
    constructor; [now eexists |]. apply Forall_app. split.
    + apply Forall_map, Forall_forall. intros a _. now eexists.
    + constructor; [now eexists | constructor].
  - rewrite newlines_app, IH2. cbn [List.length map list_sum].
    change (?x :: ?y ++ [?z]) with ([x] ++ y ++ [z]).
    rewrite !newlines_app.
    assert (A : newlines (map (fun a => E_print stdout (" " ++ a)) (argv f))
                = list_sum (map line_ends (argv f))).
    { induction (argv f) as [| a args IHa]; [reflexivity |].
      cbn [map]. change (?x :: ?y) with ([x] ++ y) at 1.
      rewrite newlines_app, IHa. unfold newlines, list_sum. cbn. lia. }
    rewrite A.
    assert (B : newlines [E_print stdout
                            ((if chain f then "chain" else "filter")
                               ++ " " ++ name f)]
                = line_ends (name f)).
    { unfold newlines. cbn [map list_sum]. rewrite !line_ends_app.
      destruct (chain f); cbn; lia. }
    rewrite B. change (newlines [E_print stdout nl]) with 1.
    change (list_sum (?x :: ?y)) with (x + list_sum y). lia.
Qed.

(** Two entries, three line ends: an argument that holds a line end adds
    its own to the listing. *)
Example listing_of_two_entries_has_three_line_ends :
  newlines (trace (world_of (config_print conf_two_lines w_start))) = 3
  /\ List.length (filters conf_two_lines) = 2.
Proof. split; reflexivity. Qed.
